(** * kedro_datasets.ibis.FileDataset: connection registry and file I/O

    A shallow embedding of [kedro_datasets/ibis/file_dataset.py].

    Python objects live in a store: dictionaries and lists are mutable
    objects reached through references, so that two names for one
    dictionary see each other's updates.  The class attribute
    [_connections], the file system and the log of calls made to the
    collaborators (ibis, the backend connection, the versioning layer of
    kedro, pathlib) are the remaining components of the state. *)

From Stdlib Require Import ZArith OrderedTypeEx.
From stdpp Require Import gmap strings list sorting.

Open Scope Z_scope.
Open Scope string_scope.
Open Scope list_scope.
Open Scope nat_scope.

Set Warnings "-register-all".
Set Default Proof Using "Type".

(** ** Values and the object store *)

Abbreviation loc := nat (only parsing).

(** Immutable values are carried inline; a dict or a list is a reference
    into the store.  Floats, sets and user classes are left out: a
    configuration read from YAML or JSON is built from the constructors
    below. *)
Inductive value : Type :=
| VNone
| VBool (b : bool)
| VInt (z : Z)
| VStr (s : string)
| VTuple (vs : list value)
| VRef (l : loc).

(** Dict keys are strings, as the annotations [dict[str, Any]] of the
    source say; the items are kept in insertion order. *)
Inductive obj : Type :=
| ODict (items : list (string * value))
| OList (elems : list value).

(** The store: an object's location is its index; objects are never
    reclaimed. *)
Abbreviation heap := (list obj) (only parsing).

Inductive exn : Type :=
| RecursionError
| TypeError
| KeyError (k : string)
| AttributeError (name : string)
| DatasetError
| OSError
| BackendError
| NoSuchObject.   (* a dangling reference; no Python program builds one *)

Inductive result (A : Type) : Type :=
| Ok (a : A)
| Raise (e : exn).
Arguments Ok {A} a.
Arguments Raise {A} e.

#[global] Instance result_ret : MRet result := fun A a => Ok a.
#[global] Instance result_bind : MBind result :=
  fun A B f m => match m with Ok a => f a | Raise e => Raise e end.
#[global] Instance result_fmap : FMap result :=
  fun A B f m => match m with Ok a => Ok (f a) | Raise e => Raise e end.

(** ** [sorted] on the items of a dict

    Python's [sorted] is stable and compares with [<] only.  Items are
    [(key, value)] tuples; tuple comparison looks at the second component
    only when the first ones are equal, which cannot happen between two
    items of one dict, so the comparison is the one of the keys
    (code-point order on [str]). *)

Definition item_lt {A} (x y : string * A) : bool := String.ltb x.1 y.1.

Fixpoint insert_sorted {A} (lt : A → A → bool) (x : A) (l : list A) : list A :=
  match l with
  | [] => [x]
  | y :: l' => if lt y x then y :: insert_sorted lt x l' else x :: y :: l'
  end.

Definition sorted {A} (lt : A → A → bool) (l : list A) : list A :=
  foldr (insert_sorted lt) [] l.

(** ** [hashable], the local function of the [connection] property

<<
    def hashable(value):
        if isinstance(value, dict):
            return tuple((k, hashable(v)) for k, v in sorted(value.items()))
        if isinstance(value, list):
            return tuple(hashable(x) for x in value)
        return value
>>
    [depth] is the number of frames left before the interpreter raises
    [RecursionError]; a dict that contains itself runs into it. *)

Fixpoint hashable (depth : nat) (h : heap) (v : value) : result value :=
  match depth with
  | 0 => Raise RecursionError
  | S d =>
      match v with
      | VRef l =>
          match h !! l with
          | Some (ODict items) =>
              VTuple <$> mapM (fun kv : string * value =>
                                 hv ← hashable d h kv.2;
                                 mret (VTuple [VStr kv.1; hv]))
                              (sorted item_lt items)
          | Some (OList elems) => VTuple <$> mapM (hashable d h) elems
          | None => Raise NoSuchObject
          end
      | _ => Ok v
      end
  end.

(** A value can be a dict key when no list or dict occurs in it. *)
Fixpoint is_hashable (v : value) : bool :=
  match v with
  | VRef _ => false
  | VTuple vs => forallb is_hashable vs
  | _ => true
  end.

(** [==] on hashable values: structural, except that [True == 1] and
    [False == 0]. *)
Fixpoint py_eqb (a b : value) : bool :=
  match a, b with
  | VNone, VNone => true
  | VBool x, VBool y => bool_decide (x = y)
  | VBool x, VInt z | VInt z, VBool x => bool_decide (z = if x then 1%Z else 0%Z)
  | VInt x, VInt y => bool_decide (x = y)
  | VStr x, VStr y => bool_decide (x = y)
  | VTuple xs, VTuple ys =>
      (fix all2 (xs ys : list value) : bool :=
         match xs, ys with
         | [], [] => true
         | x :: xs', y :: ys' => py_eqb x y && all2 xs' ys'
         | _, _ => false
         end) xs ys
  | VRef x, VRef y => bool_decide (x = y)
  | _, _ => false
  end.

(** ** Operations on the store *)

(** A new object takes the first unused location. *)
Definition alloc (o : obj) (h : heap) : loc * heap := (List.length h, h ++ [o]).

Fixpoint dict_get {A} (k : string) (items : list (string * A)) : option A :=
  match items with
  | [] => None
  | (k', v) :: rest => if bool_decide (k' = k) then Some v else dict_get k rest
  end.

(** [d[k] = v]: an existing key keeps its position, a new one goes last. *)
Fixpoint dict_set {A} (k : string) (v : A) (items : list (string * A)) : list (string * A) :=
  match items with
  | [] => [(k, v)]
  | (k', v') :: rest =>
      if bool_decide (k' = k) then (k, v) :: rest else (k', v') :: dict_set k v rest
  end.

Fixpoint dict_del {A} (k : string) (items : list (string * A)) : list (string * A) :=
  match items with
  | [] => []
  | (k', v') :: rest =>
      if bool_decide (k' = k) then rest else (k', v') :: dict_del k rest
  end.

(** [d.update(other)] *)
Definition dict_update {A} (items other : list (string * A)) : list (string * A) :=
  foldl (fun acc kv => dict_set kv.1 kv.2 acc) items other.

(** Truth value of an object, as [or] tests it. *)
Definition truthy (h : heap) (v : value) : bool :=
  match v with
  | VNone => false
  | VBool b => b
  | VInt z => negb (Z.eqb z 0)
  | VStr s => negb (String.eqb s "")
  | VTuple vs => negb (bool_decide (vs = []))
  | VRef l =>
      match h !! l with
      | Some (ODict items) => negb (bool_decide (items = []))
      | Some (OList elems) => negb (bool_decide (elems = []))
      | None => true
      end
  end.

(** [copy.deepcopy] on the values above: immutable atoms are returned as
    they are, a tuple is rebuilt from the copies of its elements, a dict or
    a list becomes a new object holding the copies of its contents.  The
    memo table of the library, which keeps sub-objects that were shared in
    the original shared in the copy, is not modelled. *)
Fixpoint copy_all (copy : value → heap → result (value * heap))
    (vs : list value) (h : heap) : result (list value * heap) :=
  match vs with
  | [] => Ok ([], h)
  | x :: vs' =>
      match copy x h with
      | Raise e => Raise e
      | Ok (x', h1) =>
          match copy_all copy vs' h1 with
          | Raise e => Raise e
          | Ok (vs'', h2) => Ok (x' :: vs'', h2)
          end
      end
  end.

Fixpoint deepcopy (depth : nat) (v : value) (h : heap) : result (value * heap) :=
  match depth with
  | 0 => Raise RecursionError
  | S d =>
      match v with
      | VTuple vs =>
          match copy_all (deepcopy d) vs h with
          | Raise e => Raise e
          | Ok (vs', h') => Ok (VTuple vs', h')
          end
      | VRef l =>
          match h !! l with
          | Some (ODict items) =>
              match copy_all (deepcopy d) items.*2 h with
              | Raise e => Raise e
              | Ok (vs', h') =>
                  let '(l', h'') := alloc (ODict (zip items.*1 vs')) h' in
                  Ok (VRef l', h'')
              end
          | Some (OList elems) =>
              match copy_all (deepcopy d) elems h with
              | Raise e => Raise e
              | Ok (vs', h') =>
                  let '(l', h'') := alloc (OList vs') h' in
                  Ok (VRef l', h'')
              end
          | None => Raise NoSuchObject
          end
      | _ => Ok (v, h)
      end
  end.

(** ** The world *)

Abbreviation handle := nat (only parsing).   (* identity of a backend object *)
Abbreviation table := nat (only parsing).    (* identity of an [ir.Table] *)
Abbreviation path := (list string) (only parsing).   (* components, outermost first *)

Inductive kind := File | Dir.

Record Version := { load_version : option string; save_version : option string }.

(** Calls that leave the module, in the order they are made. *)
Inductive event : Type :=
| EGetLoadPath
| EGetSavePath
| EExists (p : path)
| EMkdir (p : path)
| EIbisAttr (name : string)
| EConnect (backend : string) (kwargs : list (string * value))
| EConnAttr (c : handle) (name : string)
| ERead (c : handle) (method : string) (p : path) (table_name : option string)
        (kwargs : list (string * value))
| EWrite (c : handle) (method : string) (data : table) (p : path)
         (kwargs : list (string * value)).

Record World := {
  store : heap;
  _connections : list (value * handle);   (* FileDataset._connections *)
  next_handle : handle;
  fs : gmap path kind;
  trace : list event;
}.

Record FileDataset := {
  _filepath : path;
  _version : option Version;
  _file_format : string;
  _table_name : option string;
  _connection_config : value;
  metadata : value;
  _load_args : value;
  _save_args : value;
}.

(** The collaborators.  Their answers may depend on everything that
    happened before (the world they are handed includes the trace), never
    on anything else.  They do not write to the caller's objects nor to
    [_connections]. *)
Record Env := {
  recursion_limit : nat;
  (* hasattr(ibis, name) *)
  ibis_has : string → bool;
  (* getattr(ibis, name).connect( **kwargs ): [None] when a backend object
     is returned, always a new one *)
  connect_fails : string → list (string * value) → World → option exn;
  (* hasattr(c, name) for a backend object c *)
  conn_has : handle → string → bool;
  (* c.read_<fmt>(path, table_name, **kwargs) *)
  conn_read : handle → string → path → option string → list (string * value) →
              World → result table;
  (* c.to_<fmt>(data, path, **kwargs): the file system it leaves *)
  conn_write : handle → string → table → path → list (string * value) →
               World → result (gmap path kind);
  (* AbstractVersionedDataset._get_load_path / _get_save_path *)
  get_load_path : FileDataset → World → result path;
  get_save_path : FileDataset → World → result path;
}.

(** ** State and exceptions *)

Definition M (A : Type) : Type := World → result A * World.

#[global] Instance M_ret : MRet M := fun A a w => (Ok a, w).
#[global] Instance M_bind : MBind M :=
  fun A B f m w =>
    match m w with
    | (Ok a, w') => f a w'
    | (Raise e, w') => (Raise e, w')
    end.

#[global] Instance M_fmap : FMap M :=
  fun A B f m w =>
    match m w with
    | (Ok a, w') => (Ok (f a), w')
    | (Raise e, w') => (Raise e, w')
    end.

Definition raise {A} (e : exn) : M A := fun w => (Raise e, w).
Definition lift {A} (r : result A) : M A := fun w => (r, w).
Definition get_world : M World := fun w => (Ok w, w).
Definition set_store (h : heap) : M unit :=
  fun w => (Ok (), {| store := h; _connections := _connections w;
                      next_handle := next_handle w; fs := fs w; trace := trace w |}).
Definition set_connections (r : list (value * handle)) : M unit :=
  fun w => (Ok (), {| store := store w; _connections := r;
                      next_handle := next_handle w; fs := fs w; trace := trace w |}).
Definition set_fs (f : gmap path kind) : M unit :=
  fun w => (Ok (), {| store := store w; _connections := _connections w;
                      next_handle := next_handle w; fs := f; trace := trace w |}).
Definition emit (ev : event) : M unit :=
  fun w => (Ok (), {| store := store w; _connections := _connections w;
                      next_handle := next_handle w; fs := fs w;
                      trace := trace w ++ [ev] |}).
Definition new_handle : M handle :=
  fun w => (Ok (next_handle w),
            {| store := store w; _connections := _connections w;
               next_handle := S (next_handle w); fs := fs w; trace := trace w |}).

(** [try: m except DatasetError: handler] *)
Definition try_except_DatasetError {A} (m : M A) (handler : M A) : M A :=
  fun w =>
    match m w with
    | (Raise DatasetError, w') => handler w'
    | r => r
    end.

(** ** Primitives used by the methods *)

(** Lookup in [_connections]: the entry whose key is [==] to [key]. *)
Fixpoint reg_get (key : value) (r : list (value * handle)) : option handle :=
  match r with
  | [] => None
  | (k, c) :: r' => if py_eqb k key then Some c else reg_get key r'
  end.

Fixpoint reg_set (key : value) (c : handle) (r : list (value * handle))
  : list (value * handle) :=
  match r with
  | [] => [(key, c)]
  | (k, c') :: r' => if py_eqb k key then (k, c) :: r' else (k, c') :: reg_set key c r'
  end.

(** [key in cls._connections]; hashing an unhashable key raises. *)
Definition contains (key : value) : M bool :=
  fun w =>
    if is_hashable key
    then (Ok (bool_decide (is_Some (reg_get key (_connections w)))), w)
    else (Raise TypeError, w).

(** [cls._connections[key] = c] *)
Definition setitem (key : value) (c : handle) : M unit :=
  fun w =>
    if is_hashable key
    then set_connections (reg_set key c (_connections w)) w
    else (Raise TypeError, w).

(** [cls._connections[key]] *)
Definition getitem (key : value) : M handle :=
  fun w =>
    if is_hashable key
    then match reg_get key (_connections w) with
         | Some c => (Ok c, w)
         | None => (Raise (KeyError "<key>"), w)
         end
    else (Raise TypeError, w).

(** [config.pop(k)] *)
Definition pop (config : value) (k : string) : M value :=
  fun w =>
    match config with
    | VRef l =>
        match store w !! l with
        | Some (ODict items) =>
            match dict_get k items with
            | Some v => (Ok v, snd (set_store (<[l := ODict (dict_del k items)]> (store w)) w))
            | None => (Raise (KeyError k), w)
            end
        | Some (OList _) => (Raise TypeError, w)
        | None => (Raise NoSuchObject, w)
        end
    | _ => (Raise (AttributeError "pop"), w)
    end.

(** [v[k]] with a string [k] *)
Definition subscript (v : value) (k : string) : M value :=
  fun w =>
    match v with
    | VRef l =>
        match store w !! l with
        | Some (ODict items) =>
            match dict_get k items with
            | Some x => (Ok x, w)
            | None => (Raise (KeyError k), w)
            end
        | Some (OList _) => (Raise TypeError, w)
        | None => (Raise NoSuchObject, w)
        end
    | _ => (Raise TypeError, w)
    end.

(** The items of a mapping, as [**mapping] hands them to a callee. *)
Definition unpack (v : value) : M (list (string * value)) :=
  fun w =>
    match v with
    | VRef l =>
        match store w !! l with
        | Some (ODict items) => (Ok items, w)
        | Some (OList _) => (Raise TypeError, w)
        | None => (Raise NoSuchObject, w)
        end
    | _ => (Raise TypeError, w)
    end.

(** [d.update(other)] for a dict [other]; the annotations of [__init__]
    admit nothing else but [None], which the caller tests first. *)
Definition update (d other : value) : M unit :=
  fun w =>
    match d, other with
    | VRef l, VRef l' =>
        match store w !! l, store w !! l' with
        | Some (ODict items), Some (ODict items') =>
            set_store (<[l := ODict (dict_update items items')]> (store w)) w
        | Some _, Some _ => (Raise TypeError, w)
        | _, _ => (Raise NoSuchObject, w)
        end
    | _, _ => (Raise TypeError, w)
    end.

(** ** The file system *)

(** [Path(p).parent] *)
Definition parent (p : path) : path := removelast p.

Fixpoint mkdir_from (base rest : path) (f : gmap path kind) : result (gmap path kind) :=
  match rest with
  | [] => Ok f
  | c :: rest' =>
      let p := base ++ [c] in
      match f !! p with
      | Some File => Raise OSError
      | Some Dir => mkdir_from p rest' f
      | None => mkdir_from p rest' (<[p := Dir]> f)
      end
  end.

(** [Path(p).mkdir(parents=True, exist_ok=True)]: the missing directories
    on the way to [p] and [p] itself are created; a regular file on the way
    or at [p] makes it fail.  The empty path, the directory the process
    runs in, always exists. *)
Definition mkdir (p : path) : M unit :=
  fun w =>
    let w' := snd (emit (EMkdir p) w) in
    match mkdir_from [] p (fs w') with
    | Ok f => set_fs f w'
    | Raise e => (Raise e, w')
    end.


(** [Path(p).exists()] *)
Definition path_exists (p : path) : M bool :=
  fun w =>
    let w' := snd (emit (EExists p) w) in
    (Ok (bool_decide (p = [] ∨ is_Some (fs w' !! p))), w').

(** ** The class [FileDataset] *)

Section FileDataset.

Variable E : Env.

(** Class attributes: three dict objects made when the class body runs. *)
Definition DEFAULT_CONNECTION_CONFIG : loc := 0.
Definition DEFAULT_LOAD_ARGS : loc := 1.
Definition DEFAULT_SAVE_ARGS : loc := 2.

Definition class_store : heap :=
  [ ODict [("backend", VStr "duckdb"); ("database", VStr ":memory:")];
    ODict [];
    ODict [] ].

(** The world right after the module is imported. *)
Definition world0 : World :=
  {| store := class_store; _connections := []; next_handle := 0;
     fs := ∅; trace := [] |}.

Definition deepcopy_m (v : value) : M value :=
  fun w =>
    match deepcopy (recursion_limit E) v (store w) with
    | Ok (v', h') => (Ok v', snd (set_store h' w))
    | Raise e => (Raise e, w)
    end.

(** <<
    self._file_format = file_format
    self._table_name = table_name
    self._connection_config = connection or self.DEFAULT_CONNECTION_CONFIG
    self.metadata = metadata
    super().__init__(filepath=PurePosixPath(filepath), version=version, ...)
    self._load_args = deepcopy(self.DEFAULT_LOAD_ARGS)
    if load_args is not None:
        self._load_args.update(load_args)
    self._save_args = deepcopy(self.DEFAULT_SAVE_ARGS)
    if save_args is not None:
        self._save_args.update(save_args)
>> *)
Definition __init__ (filepath : path) (file_format : string)
    (table_name : option string) (connection load_args save_args : value)
    (version : option Version) (metadata : value) : M FileDataset :=
  w ← get_world;
  let config := if truthy (store w) connection then connection
                else VRef DEFAULT_CONNECTION_CONFIG in
  la ← deepcopy_m (VRef DEFAULT_LOAD_ARGS);
  (match load_args with VNone => mret () | _ => update la load_args end);;
  sa ← deepcopy_m (VRef DEFAULT_SAVE_ARGS);
  (match save_args with VNone => mret () | _ => update sa save_args end);;
  mret {| _filepath := filepath; _version := version;
          _file_format := file_format; _table_name := table_name;
          _connection_config := config; metadata := metadata;
          _load_args := la; _save_args := sa |}.

(** [getattr(ibis, name)] *)
Definition ibis_getattr (name : value) : M string :=
  match name with
  | VStr s =>
      emit (EIbisAttr s);;
      if ibis_has E s then mret s else raise (AttributeError s)
  | _ => raise TypeError
  end.

(** [backend.connect( **config )] *)
Definition backend_connect (backend : string) (config : value) : M handle :=
  kwargs ← unpack config;
  w ← get_world;
  emit (EConnect backend kwargs);;
  match connect_fails E backend kwargs w with
  | Some e => raise e
  | None => new_handle
  end.

(** <<
    cls = type(self)
    key = hashable(self._connection_config)
    if key not in cls._connections:
        import ibis
        config = deepcopy(self._connection_config)
        backend = getattr(ibis, config.pop("backend"))
        cls._connections[key] = backend.connect( **config )
    return cls._connections[key]
>> *)
Definition connection (self : FileDataset) : M handle :=
  w ← get_world;
  key ← lift (hashable (recursion_limit E) (store w) (_connection_config self));
  present ← contains key;
  (if (present : bool) then (mret () : M unit)
   else
     config ← deepcopy_m (_connection_config self);
     name ← pop config "backend";
     backend ← ibis_getattr name;
     c ← backend_connect backend config;
     setitem key c);;
  getitem key.

Definition _get_load_path (self : FileDataset) : M path :=
  w ← get_world;
  emit EGetLoadPath;;
  lift (get_load_path E self w).

Definition _get_save_path (self : FileDataset) : M path :=
  w ← get_world;
  emit EGetSavePath;;
  lift (get_save_path E self w).

(** [getattr(c, name)] on a backend object *)
Definition conn_getattr (c : handle) (name : string) : M string :=
  emit (EConnAttr c name);;
  if conn_has E c name then mret name else raise (AttributeError name).

(** <<
    load_path = self._get_load_path()
    reader = getattr(self.connection, f"read_{self._file_format}")
    return reader(load_path, self._table_name, **self._load_args)
>> *)
Definition load (self : FileDataset) : M table :=
  load_path ← _get_load_path self;
  c ← connection self;
  reader ← conn_getattr c ("read_" +:+ _file_format self);
  kwargs ← unpack (_load_args self);
  w ← get_world;
  emit (ERead c reader load_path (_table_name self) kwargs);;
  lift (conn_read E c reader load_path (_table_name self) kwargs w).

(** <<
    save_path = self._get_save_path()
    Path(save_path).parent.mkdir(parents=True, exist_ok=True)
    writer = getattr(self.connection, f"to_{self._file_format}")
    writer(data, save_path, **self._save_args)
>> *)
Definition save (self : FileDataset) (data : table) : M unit :=
  save_path ← _get_save_path self;
  mkdir (parent save_path);;
  c ← connection self;
  writer ← conn_getattr c ("to_" +:+ _file_format self);
  kwargs ← unpack (_save_args self);
  w ← get_world;
  emit (EWrite c writer data save_path kwargs);;
  f ← lift (conn_write E c writer data save_path kwargs w);
  set_fs f.

(** What the entries of the dict built by [_describe] hold. *)
Inductive field : Type :=
| FPath (p : path)
| FValue (v : value)
| FVersion (v : option Version).

Definition of_option_str (o : option string) : value :=
  match o with Some s => VStr s | None => VNone end.

(** <<
    return {
        "filepath": self._filepath,
        "file_format": self._file_format,
        "table_name": self._table_name,
        "backend": self._connection_config["backend"],
        "load_args": self._load_args,
        "save_args": self._save_args,
        "version": self._version,
    }
>> *)
Definition _describe (self : FileDataset) : M (list (string * field)) :=
  backend ← subscript (_connection_config self) "backend";
  mret [ ("filepath", FPath (_filepath self));
         ("file_format", FValue (VStr (_file_format self)));
         ("table_name", FValue (of_option_str (_table_name self)));
         ("backend", FValue backend);
         ("load_args", FValue (_load_args self));
         ("save_args", FValue (_save_args self));
         ("version", FVersion (_version self)) ].

(** <<
    try:
        load_path = self._get_load_path()
    except DatasetError:
        return False
    return Path(load_path).exists()
>> *)
Definition _exists (self : FileDataset) : M bool :=
  r ← try_except_DatasetError (Some <$> _get_load_path self) (mret None);
  match r with
  | None => mret false
  | Some load_path => path_exists load_path
  end.

End FileDataset.

(** ** What client code can do between two calls *)

(** [d[k] = v] *)
Definition dict_setitem (d : value) (k : string) (v : value) : M unit :=
  fun w =>
    match d with
    | VRef l =>
        match store w !! l with
        | Some (ODict items) => set_store (<[l := ODict (dict_set k v items)]> (store w)) w
        | Some (OList _) => (Raise TypeError, w)
        | None => (Raise NoSuchObject, w)
        end
    | _ => (Raise TypeError, w)
    end.



(** One operation of a run: a method of the class, or client code that
    rearranges the store or the file system as it likes. *)
Inductive op : Type :=
| OpInit (filepath : path) (file_format : string) (table_name : option string)
         (connection load_args save_args : value) (version : option Version)
         (metadata : value)
| OpConnection (self : FileDataset)
| OpLoad (self : FileDataset)
| OpSave (self : FileDataset) (data : table)
| OpDescribe (self : FileDataset)
| OpExists (self : FileDataset)
| OpStore (h : heap)
| OpFs (f : gmap path kind).

Definition run_op (E : Env) (o : op) (w : World) : World :=
  match o with
  | OpInit p f t c la sa v m => snd (__init__ E p f t c la sa v m w)
  | OpConnection self => snd (connection E self w)
  | OpLoad self => snd (load E self w)
  | OpSave self data => snd (save E self data w)
  | OpDescribe self => snd (_describe self w)
  | OpExists self => snd (_exists E self w)
  | OpStore h => snd (set_store h w)
  | OpFs f => snd (set_fs f w)
  end.

Definition run_ops (E : Env) (ops : list op) (w : World) : World :=
  foldl (fun w o => run_op E o w) w ops.

(** The cache key of an adapter in a world, as [connection] computes it. *)
Definition cache_key (E : Env) (self : FileDataset) (w : World) : result value :=
  hashable (recursion_limit E) (store w) (_connection_config self).

(** ** Configurations as plain data

    The tree a value stands for in a store, references followed.  Keys of
    a dict stay in insertion order. *)

Inductive tree : Type :=
| TNone
| TBool (b : bool)
| TInt (z : Z)
| TStr (s : string)
| TTuple (ts : list tree)
| TList (ts : list tree)
| TDict (items : list (string * tree)).

Fixpoint reify (n : nat) (h : heap) (v : value) : option tree :=
  match n with
  | 0 => None
  | S m =>
      match v with
      | VNone => Some TNone
      | VBool b => Some (TBool b)
      | VInt z => Some (TInt z)
      | VStr s => Some (TStr s)
      | VTuple vs => TTuple <$> mapM (reify m h) vs
      | VRef l =>
          match h !! l with
          | Some (ODict items) =>
              TDict <$> mapM (fun kv : string * value => pair kv.1 <$> reify m h kv.2) items
          | Some (OList elems) => TList <$> mapM (reify m h) elems
          | None => None
          end
      end
  end.

Definition denotes (h : heap) (v : value) (t : tree) : Prop :=
  ∃ n, reify n h v = Some t.

Definition denotes_items (h : heap) (items : list (string * value))
    (titems : list (string * tree)) : Prop :=
  Forall2 (fun kv kt => kv.1 = kt.1 ∧ denotes h kv.2 kt.2) items titems.

(** The normalization in the words of the specification: a dict becomes
    the tuple of its (key, normalized value) pairs sorted by key, a list
    the tuple of its normalized elements, anything else is returned as it
    is. *)
Fixpoint normalize_spec (t : tree) : tree :=
  match t with
  | TDict items =>
      TTuple (map (fun kt : string * tree => TTuple [TStr kt.1; kt.2])
                  (sorted item_lt
                     (map (fun kt : string * tree => (kt.1, normalize_spec kt.2)) items)))
  | TList ts => TTuple (map normalize_spec ts)
  | _ => t
  end.

(** Representative of a hashable value among the values [==] to it. *)
Fixpoint canon (v : value) : value :=
  match v with
  | VBool b => VInt (if b then 1 else 0)
  | VTuple vs => VTuple (map canon vs)
  | _ => v
  end.

(** Handles in the registry were all handed out already, each one once. *)
Definition reg_inv (w : World) : Prop :=
  Forall (fun kc : value * handle => kc.2 < next_handle w) (_connections w)
  ∧ NoDup (_connections w).*2.

(** ** Sample collaborators and objects *)

(** Every backend exists and connects, every method exists, a reader
    returns table 7, a writer leaves a file at its path, and paths are not
    versioned. *)
Definition sample_env : Env :=
  {| recursion_limit := 1000;
     ibis_has := fun _ => true;
     connect_fails := fun _ _ _ => None;
     conn_has := fun _ _ => true;
     conn_read := fun _ _ _ _ _ _ => Ok 7;
     conn_write := fun _ _ _ p _ w => Ok (<[p := File]> (fs w));
     get_load_path := fun self _ => Ok (_filepath self);
     get_save_path := fun self _ => Ok (_filepath self) |}.

(** A versioning layer that finds no version to load. *)
Definition unversioned_env : Env :=
  {| recursion_limit := 1000;
     ibis_has := fun _ => true;
     connect_fails := fun _ _ _ => None;
     conn_has := fun _ _ => true;
     conn_read := fun _ _ _ _ _ _ => Ok 7;
     conn_write := fun _ _ _ p _ w => Ok (<[p := File]> (fs w));
     get_load_path := fun _ _ => Raise DatasetError;
     get_save_path := fun _ _ => Raise DatasetError |}.

Definition with_store (h : heap) : World :=
  {| store := h; _connections := []; next_handle := 0; fs := ∅; trace := [] |}.

(** An adapter on the default connection, as [FileDataset("data/a.csv",
    "csv")] builds it in [world0]. *)
Definition sample_dataset : FileDataset :=
  {| _filepath := ["data"; "a.csv"]; _version := None;
     _file_format := "csv"; _table_name := None;
     _connection_config := VRef DEFAULT_CONNECTION_CONFIG; metadata := VNone;
     _load_args := VRef 3; _save_args := VRef 4 |}.

Definition sample_world : World := with_store (class_store ++ [ODict []; ODict []]).

(** The class attributes hold what the class body gave them. *)
Definition class_intact (h : heap) : Prop :=
  h !! DEFAULT_CONNECTION_CONFIG
    = Some (ODict [("backend", VStr "duckdb"); ("database", VStr ":memory:")])
  ∧ h !! DEFAULT_LOAD_ARGS = Some (ODict [])
  ∧ h !! DEFAULT_SAVE_ARGS = Some (ODict []).

(** The overrides an argument [load_args] or [save_args] brings: none for
    [None], the items of the dict otherwise. *)
Definition overrides (h : heap) (args : value) : option (list (string * value)) :=
  match args with
  | VNone => Some []
  | VRef l => match h !! l with Some (ODict items) => Some items | _ => None end
  | _ => None
  end.

Definition with_objects (w : World) (os : list obj) : World :=
  {| store := store w ++ os; _connections := _connections w;
     next_handle := next_handle w; fs := fs w; trace := trace w |}.

(** A caller's objects: the list [["a"]] and the dict [{"columns": ["a"]}]
    that refers to it. *)
Definition nested_args_store : heap :=
  class_store ++ [OList [VStr "a"]; ODict [("columns", VRef 3)]].



(** [x'] is a copy of [x]: in the store [h] both stand for one tree, and
    a string is the copy of itself only. *)
Definition copy_of (n : nat) (h : heap) (x x' : value) : Prop :=
  (∃ t, reify n h x = Some t ∧ reify n h x' = Some t)
  ∧ (∀ s, x' = VStr s → x = VStr s).

(** The world [connection] leaves after a miss: the copy of the
    configuration, at [l'] in [h'], has lost its backend entry; one entry
    was added to [_connections]; ibis was asked for the backend and the
    backend for a connection. *)
Definition miss_world (w : World) (h' : heap) (l' : loc)
    (items : list (string * value)) (name : string) (key : value) : World :=
  {| store := <[l' := ODict (dict_del "backend" items)]> h';
     _connections := _connections w ++ [(key, next_handle w)];
     next_handle := S (next_handle w);
     fs := fs w;
     trace := trace w ++ [EIbisAttr name; EConnect name (dict_del "backend" items)] |}.


(** From [w] to [w'] the registry has kept every entry it had. *)
Definition grows (w w' : World) : Prop :=
  (∀ k c, reg_get k (_connections w) = Some c → reg_get k (_connections w') = Some c)
  ∧ (reg_inv w → reg_inv w').

(** Two configurations that differ in a nested value: [opts] is the dict
    [{"a": 1}] in the first and the list [[["a", 1]]] in the second. *)
Definition twin_store : heap :=
  class_store ++
  [ ODict [("a", VInt 1)];
    ODict [("backend", VStr "duckdb"); ("opts", VRef 3)];
    OList [VStr "a"; VInt 1];
    OList [VRef 5];
    ODict [("backend", VStr "duckdb"); ("opts", VRef 6)];
    ODict []; ODict [] ].

Definition twin_dataset (config : loc) : FileDataset :=
  {| _filepath := ["data"; "a.csv"]; _version := None;
     _file_format := "csv"; _table_name := None;
     _connection_config := VRef config; metadata := VNone;
     _load_args := VRef 8; _save_args := VRef 9 |}.

(** The default configuration written with its keys in the other order,
    and an adapter on it. *)
Definition reordered_world : World :=
  with_store (class_store ++
    [ ODict []; ODict [];
      ODict [("database", VStr ":memory:"); ("backend", VStr "duckdb")] ]).

Definition reordered_dataset : FileDataset :=
  {| _filepath := ["data"; "b.csv"]; _version := None;
     _file_format := "parquet"; _table_name := Some "b";
     _connection_config := VRef 5; metadata := VNone;
     _load_args := VRef 3; _save_args := VRef 4 |}.

Definition default_key : value :=
  VTuple [VTuple [VStr "backend"; VStr "duckdb"];
          VTuple [VStr "database"; VStr ":memory:"]].

(** The order in which [sorted] puts two items. *)
Definition key_lt {A} (x y : string * A) : Prop := item_lt x y = true.

(** A configuration as YAML or JSON gives it: dicts, lists and scalars, no
    tuple. *)
Fixpoint json_like (t : tree) : bool :=
  match t with
  | TTuple _ => false
  | TList ts => forallb json_like ts
  | TDict items => forallb (fun kt : string * tree => json_like kt.2) items
  | _ => true
  end.

(** An installation of ibis without any backend, and one whose backends
    refuse every connection. *)
Definition offline_env : Env :=
  {| recursion_limit := 1000;
     ibis_has := fun _ => false;
     connect_fails := fun _ _ _ => None;
     conn_has := fun _ _ => true;
     conn_read := fun _ _ _ _ _ _ => Ok 7;
     conn_write := fun _ _ _ p _ w => Ok (<[p := File]> (fs w));
     get_load_path := fun self _ => Ok (_filepath self);
     get_save_path := fun self _ => Ok (_filepath self) |}.

Definition refusing_env : Env :=
  {| recursion_limit := 1000;
     ibis_has := fun _ => true;
     connect_fails := fun _ _ _ => Some BackendError;
     conn_has := fun _ _ => true;
     conn_read := fun _ _ _ _ _ _ => Ok 7;
     conn_write := fun _ _ _ p _ w => Ok (<[p := File]> (fs w));
     get_load_path := fun self _ => Ok (_filepath self);
     get_save_path := fun self _ => Ok (_filepath self) |}.

(** A world whose object 5 is a configuration without backend entry, the
    one [reordered_dataset] refers to. *)
Definition no_backend_world : World :=
  with_store (class_store ++
    [ ODict []; ODict []; ODict [("database", VStr "company.db")] ]).


(** A versioning layer that fails otherwise than by [DatasetError]. *)
Definition broken_env : Env :=
  {| recursion_limit := 1000;
     ibis_has := fun _ => true;
     connect_fails := fun _ _ _ => None;
     conn_has := fun _ _ => true;
     conn_read := fun _ _ _ _ _ _ => Ok 7;
     conn_write := fun _ _ _ p _ w => Ok (<[p := File]> (fs w));
     get_load_path := fun _ _ => Raise OSError;
     get_save_path := fun _ _ => Raise OSError |}.

(** A configuration whose [hosts] entry is a tuple holding a list, as
    [{"backend": "duckdb", "hosts": (["a"],)}] written in Python, and an
    adapter on it. *)
Definition tuple_world : World :=
  with_store (class_store ++
    [ ODict []; ODict []; OList [VStr "a"];
      ODict [("backend", VStr "duckdb"); ("hosts", VTuple [VRef 5])] ]).

Definition tuple_dataset : FileDataset :=
  {| _filepath := ["data"; "a.csv"]; _version := None;
     _file_format := "csv"; _table_name := None;
     _connection_config := VRef 6; metadata := VNone;
     _load_args := VRef 3; _save_args := VRef 4 |}.

(** * Properties *)

(** ** [deepcopy] only adds objects *)

Lemma copy_all_prefix copy :
  (∀ v h v' h', copy v h = Ok (v', h') → h `prefix_of` h') →
  ∀ vs h vs' h', copy_all copy vs h = Ok (vs', h') → h `prefix_of` h'.
Proof.
  intros Hc vs. induction vs as [|x vs IH]; intros h vs' h' H; simpl in H.
  - by inversion H.
  - destruct (copy x h) as [[x' h1]|] eqn:E1; [|done].
    destruct (copy_all copy vs h1) as [[vs'' h2]|] eqn:E2; [|done].
    inversion H; subst. etrans; [by eapply Hc | by eapply IH].
Qed.

Lemma copy_all_length copy vs h vs' h' :
  copy_all copy vs h = Ok (vs', h') → List.length vs' = List.length vs.
Proof.
  revert h vs' h'. induction vs as [|x vs IH]; intros h vs' h' H; simpl in H.
  - by inversion H.
  - destruct (copy x h) as [[x' h1]|] eqn:E1; [|done].
    destruct (copy_all copy vs h1) as [[vs'' h2]|] eqn:E2; [|done].
    inversion H; subst. simpl. f_equal. by eapply IH.
Qed.

Lemma deepcopy_prefix n : ∀ v h v' h', deepcopy n v h = Ok (v', h') → h `prefix_of` h'.
Proof.
  induction n as [|n IH]; intros v h v' h' H; [done|].
  simpl in H. destruct v; try (by inversion H).
  - destruct (copy_all (deepcopy n) vs h) as [[vs' h1]|] eqn:E1; [|done].
    inversion H; subst. by eapply copy_all_prefix.
  - destruct (h !! l) as [[items|elems]|]; [| |done].
    + destruct (copy_all (deepcopy n) items.*2 h) as [[vs' h1]|] eqn:E1; [|done].
      inversion H; subst. etrans; [by eapply copy_all_prefix|]. by apply prefix_app_r.
    + destruct (copy_all (deepcopy n) elems h) as [[vs' h1]|] eqn:E1; [|done].
      inversion H; subst. etrans; [by eapply copy_all_prefix|]. by apply prefix_app_r.
Qed.

(** The copy of a dict is a new dict with the same keys in the same order. *)
Lemma deepcopy_dict n h l items v' h' :
  h !! l = Some (ODict items) →
  deepcopy n (VRef l) h = Ok (v', h') →
  ∃ l' vs', v' = VRef l' ∧ List.length h ≤ l' ∧ h' !! l' = Some (ODict (zip items.*1 vs'))
            ∧ List.length vs' = List.length items ∧ List.length h' = S l'.
Proof.
  intros Hl H. destruct n as [|n]; [done|]. simpl in H. rewrite Hl in H.
  destruct (copy_all (deepcopy n) items.*2 h) as [[vs' h1]|] eqn:E1; [|done].
  inversion H; subst. exists (List.length h1), vs'.
  split; [done|]. split.
  { apply prefix_length. eapply copy_all_prefix; [|done]. apply deepcopy_prefix. }
  split. { rewrite lookup_app_r; [|done]. by rewrite Nat.sub_diag. }
  split. { erewrite copy_all_length; [|done]. by rewrite length_fmap. }
  rewrite length_app. simpl. lia.
Qed.

(** ** Running the methods *)

Ltac run_step :=
  unfold mbind, M_bind, mret, M_ret, fmap, M_fmap, get_world, lift, raise, emit,
    set_store, set_connections, set_fs, new_handle, try_except_DatasetError; simpl.

(** ** Existence check *)

(** C8. [_exists] answers [False], without raising, when the versioning
    layer raises [DatasetError] for the load path; when a load path is
    resolved it answers what [Path(load_path).exists()] answers.  [load]
    and [save] let the same error through. *)
Theorem exists_suppresses_DatasetError (E : Env) (self : FileDataset) (w : World) :
  (get_load_path E self w = Raise DatasetError →
     _exists E self w = (Ok false, snd (emit EGetLoadPath w)))
  ∧ (∀ p, get_load_path E self w = Ok p →
     _exists E self w = path_exists p (snd (emit EGetLoadPath w)))
  ∧ (get_load_path E self w = Raise DatasetError →
     load E self w = (Raise DatasetError, snd (emit EGetLoadPath w)))
  ∧ (∀ data, get_save_path E self w = Raise DatasetError →
     save E self data w = (Raise DatasetError, snd (emit EGetSavePath w))).
Proof.
  repeat split.
  - intros H. unfold _exists, _get_load_path. run_step. by rewrite H.
  - intros p H. unfold _exists, _get_load_path. run_step. by rewrite H.
  - intros H. unfold load, _get_load_path. run_step. by rewrite H.
  - intros data H. unfold save, _get_save_path. run_step. by rewrite H.
Qed.

Lemma exists_suppresses_DatasetError_witness :
  _exists unversioned_env sample_dataset sample_world
    = (Ok false, snd (emit EGetLoadPath sample_world))
  ∧ _exists sample_env sample_dataset sample_world
    = path_exists ["data"; "a.csv"] (snd (emit EGetLoadPath sample_world))
  ∧ load unversioned_env sample_dataset sample_world
    = (Raise DatasetError, snd (emit EGetLoadPath sample_world))
  ∧ save unversioned_env sample_dataset 3 sample_world
    = (Raise DatasetError, snd (emit EGetSavePath sample_world)).
Proof.
  split; [|split; [|split]].
  - apply (proj1 (exists_suppresses_DatasetError unversioned_env sample_dataset sample_world)).
    reflexivity.
  - apply (proj1 (proj2 (exists_suppresses_DatasetError sample_env sample_dataset sample_world))).
    reflexivity.
  - apply (proj1 (proj2 (proj2
      (exists_suppresses_DatasetError unversioned_env sample_dataset sample_world)))).
    reflexivity.
  - apply (proj2 (proj2 (proj2
      (exists_suppresses_DatasetError unversioned_env sample_dataset sample_world)))).
    reflexivity.
Defined.

(** ** Description *)

Lemma describe_world (self : FileDataset) (w : World) : snd (_describe self w) = w.
Proof.
  unfold _describe, subscript. run_step.
  destruct (_connection_config self) as [| | | | |l]; try done.
  destruct (store w !! l) as [[items|]|]; try done.
  by destruct (dict_get "backend" items).
Qed.



(** ** Construction *)

Lemma deepcopy_empty_dict n h l :
  h !! l = Some (ODict []) →
  deepcopy (S n) (VRef l) h = Ok (VRef (List.length h), h ++ [ODict []]).
Proof. intros Hl. simpl. by rewrite Hl. Qed.

Lemma bind_run {A B} (m : M A) (f : A → M B) (w : World) :
  (m ≫= f) w = match m w with
               | (Ok a, w') => f a w'
               | (Raise e, w') => (Raise e, w')
               end.
Proof. reflexivity. Qed.

Lemma update_new_dict (w : World) (args : value) items base :
  overrides (store w) args = Some items →
  (match args with VNone => mret () | _ => update (VRef (List.length (store w))) args end)
    (with_objects w [ODict base])
  = (Ok (), with_objects w [ODict (dict_update base items)]).
Proof.
  intros Ho. destruct args as [| | | | |l]; simpl in Ho; try done.
  - by inversion Ho.
  - destruct (store w !! l) as [[its|]|] eqn:Hl; try done. inversion Ho; subst.
    unfold update, with_objects; simpl.
    rewrite lookup_app_r, Nat.sub_diag; [|done]. simpl.
    rewrite (lookup_app_l_Some _ _ _ _ Hl). unfold set_store; simpl.
    do 2 f_equal. rewrite insert_app_r_alt, Nat.sub_diag; done.
Qed.

Lemma with_objects_app w os1 os2 :
  with_objects (with_objects w os1) os2 = with_objects w (os1 ++ os2).
Proof. unfold with_objects; simpl. by rewrite <- app_assoc. Qed.

(** What [__init__] does in a world where the class attributes are intact:
    two new dicts, one per argument map, and nothing else. *)
Lemma init_spec (E : Env) p f t conn la sa v m (w : World) ila isa :
  class_intact (store w) →
  0 < recursion_limit E →
  overrides (store w) la = Some ila →
  overrides (store w) sa = Some isa →
  __init__ E p f t conn la sa v m w =
    (Ok {| _filepath := p; _version := v; _file_format := f; _table_name := t;
           _connection_config := if truthy (store w) conn then conn
                                 else VRef DEFAULT_CONNECTION_CONFIG;
           metadata := m;
           _load_args := VRef (List.length (store w));
           _save_args := VRef (S (List.length (store w))) |},
     with_objects w [ODict (dict_update [] ila); ODict (dict_update [] isa)]).
Proof.
  intros (H0 & H1 & H2) Hlim Hla Hsa.
  destruct (recursion_limit E) as [|n] eqn:Hn; [lia|].
  unfold __init__. rewrite bind_run. unfold get_world at 1. cbv beta iota.
  rewrite bind_run. unfold deepcopy_m at 1. rewrite Hn.
  rewrite (deepcopy_empty_dict n _ _ H1). cbv beta iota.
  change (snd (set_store (store w ++ [ODict []]) w)) with (with_objects w [ODict []]).
  rewrite bind_run, (update_new_dict w la ila [] Hla). cbv beta iota.
  set (w1 := with_objects w [ODict (dict_update [] ila)]).
  assert (Hs1 : store w1 !! DEFAULT_SAVE_ARGS = Some (ODict [])).
  { unfold w1, with_objects; simpl. by apply lookup_app_l_Some. }
  rewrite bind_run. unfold deepcopy_m at 1. rewrite Hn.
  rewrite (deepcopy_empty_dict n _ _ Hs1). cbv beta iota.
  change (snd (set_store (store w1 ++ [ODict []]) w1)) with (with_objects w1 [ODict []]).
  assert (Hlen : S (List.length (store w)) = List.length (store w1)).
  { unfold w1, with_objects; simpl. rewrite length_app; simpl. lia. }
  assert (Hsa1 : overrides (store w1) sa = Some isa).
  { destruct sa as [| | | | |l]; simpl in *; try done.
    destruct (store w !! l) as [o|] eqn:Hl; [|done].
    unfold w1, with_objects; simpl. by rewrite (lookup_app_l_Some _ _ _ _ Hl). }
  rewrite bind_run, (update_new_dict w1 sa isa [] Hsa1). cbv beta iota.
  unfold w1. rewrite with_objects_app. simpl.
  unfold mret, M_ret. do 3 f_equal. unfold with_objects; simpl. rewrite length_app; simpl. f_equal. lia.
Qed.

(** C10. With the class attributes as the class body made them, leaving
    [connection] out, passing [None] and passing an empty dict build the
    same adapter: its configuration is the object
    [DEFAULT_CONNECTION_CONFIG], which holds backend duckdb and database
    :memory:. *)
Theorem init_default_connection (E : Env) p f t conn la sa v m (w : World) ila isa :
  class_intact (store w) →
  0 < recursion_limit E →
  overrides (store w) la = Some ila →
  overrides (store w) sa = Some isa →
  conn = VNone ∨ (∃ l, conn = VRef l ∧ store w !! l = Some (ODict [])) →
  ∃ ds w',
    __init__ E p f t conn la sa v m w = (Ok ds, w')
    ∧ __init__ E p f t VNone la sa v m w = (Ok ds, w')
    ∧ _connection_config ds = VRef DEFAULT_CONNECTION_CONFIG
    ∧ store w' !! DEFAULT_CONNECTION_CONFIG
      = Some (ODict [("backend", VStr "duckdb"); ("database", VStr ":memory:")]).
Proof.
  intros Hc Hlim Hla Hsa Hconn.
  pose proof (init_spec E p f t conn la sa v m w ila isa Hc Hlim Hla Hsa) as H1.
  pose proof (init_spec E p f t VNone la sa v m w ila isa Hc Hlim Hla Hsa) as H2.
  assert (Ht : truthy (store w) conn = false).
  { destruct Hconn as [->|(l & -> & Hl)]; [done|]. simpl. by rewrite Hl. }
  rewrite Ht in H1. simpl in H2.
  eexists _, _. split; [exact H1|]. split; [exact H2|]. split; [done|].
  simpl. destruct Hc as (H0 & _). by apply lookup_app_l_Some.
Qed.

Lemma init_default_connection_witness :
  ∃ ds w',
    __init__ sample_env ["data"; "a.csv"] "csv" None (VRef 1) VNone VNone None VNone world0
      = (Ok ds, w')
    ∧ __init__ sample_env ["data"; "a.csv"] "csv" None VNone VNone VNone None VNone world0
      = (Ok ds, w')
    ∧ _connection_config ds = VRef DEFAULT_CONNECTION_CONFIG
    ∧ store w' !! DEFAULT_CONNECTION_CONFIG
      = Some (ODict [("backend", VStr "duckdb"); ("database", VStr ":memory:")]).
Proof.
  apply (init_default_connection sample_env ["data"; "a.csv"] "csv" None (VRef 1)
           VNone VNone None VNone world0 [] []).
  - repeat split.
  - simpl. lia.
  - reflexivity.
  - reflexivity.
  - right. exists 1. split; reflexivity.
Defined.






(** ** Equality of keys *)

Lemma value_ind' (P : value → Prop) :
  P VNone → (∀ b, P (VBool b)) → (∀ z, P (VInt z)) → (∀ s, P (VStr s)) →
  (∀ vs, Forall P vs → P (VTuple vs)) → (∀ l, P (VRef l)) → ∀ v, P v.
Proof.
  intros HN HB HI HS HT HR. fix IH 1.
  intros [| b | z | s | vs | l];
    [apply HN | apply HB | apply HI | apply HS | | apply HR].
  apply HT. induction vs as [|v vs IHvs]; constructor; [apply IH | apply IHvs].
Qed.

Lemma py_eqb_tuple xs ys :
  py_eqb (VTuple xs) (VTuple ys) =
    match xs, ys with
    | [], [] => true
    | x :: xs', y :: ys' => py_eqb x y && py_eqb (VTuple xs') (VTuple ys')
    | _, _ => false
    end.
Proof. by destruct xs, ys. Qed.

(** [py_eqb] is equality of representatives. *)
Lemma py_eqb_canon a : ∀ b, py_eqb a b = true ↔ canon a = canon b.
Proof.
  induction a as [| x | x | x | xs IH | x] using value_ind'; intros b;
    try (destruct b as [| y | y | y | ys | y]; simpl;
         rewrite ?bool_decide_eq_true;
         try (split; intros; congruence);
         try (destruct x; split; intros; congruence);
         try (destruct y; split; intros; congruence);
         destruct x, y; split; intros; congruence).
  destruct b as [| y | y | y | ys | y]; try (simpl; split; intros; congruence).
  revert ys. induction IH as [|x xs Hx _ IHxs]; intros ys.
  - rewrite py_eqb_tuple. destruct ys; simpl; split; intros; congruence.
  - rewrite py_eqb_tuple. destruct ys as [|y ys]; [simpl; split; intros; congruence|].
    rewrite andb_true_iff, Hx, IHxs. simpl. split.
    + intros [-> H]. by inversion H.
    + intros H. inversion H. split; [done|]. by f_equal.
Qed.

Lemma py_eqb_refl a : py_eqb a a = true.
Proof. by apply py_eqb_canon. Qed.

Lemma py_eqb_sym a b : py_eqb a b = py_eqb b a.
Proof.
  apply eq_true_iff_eq. rewrite !py_eqb_canon. naive_solver.
Qed.

Lemma py_eqb_trans a b c : py_eqb a b = true → py_eqb b c = true → py_eqb a c = true.
Proof. rewrite !py_eqb_canon. congruence. Qed.

(** Keys that are [==] find the same entry. *)
Lemma reg_get_eqb k k' r : py_eqb k k' = true → reg_get k r = reg_get k' r.
Proof.
  intros H. induction r as [|[k0 c] r IH]; [done|]. simpl.
  assert (py_eqb k0 k = py_eqb k0 k') as ->; [|by rewrite IH].
  apply eq_true_iff_eq. split; intros H1.
  - by eapply py_eqb_trans.
  - eapply py_eqb_trans; [done|]. by rewrite py_eqb_sym.
Qed.

Lemma reg_set_new k c r : reg_get k r = None → reg_set k c r = r ++ [(k, c)].
Proof.
  induction r as [|[k0 c0] r IH]; [done|]. simpl.
  destruct (py_eqb k0 k); [done|]. intros H. by rewrite IH.
Qed.

Lemma reg_get_app k r r' :
  reg_get k (r ++ r') = match reg_get k r with Some c => Some c | None => reg_get k r' end.
Proof.
  induction r as [|[k0 c0] r IH]; [done|]. simpl. by destruct (py_eqb k0 k).
Qed.

Lemma reg_get_elem k c r : reg_get k r = Some c → ∃ k0, (k0, c) ∈ r ∧ py_eqb k0 k = true.
Proof.
  induction r as [|[k0 c0] r IH]; [done|]. simpl.
  destruct (py_eqb k0 k) eqn:Hk.
  - intros [= ->]. exists k0. split; [by left|done].
  - intros H. destruct (IH H) as (k1 & ? & ?). exists k1. split; [by right|done].
Qed.

(** ** What a value stands for, and what [deepcopy] copies *)

Lemma reify_S n (h : list obj) v :
  reify (S n) h v =
    match v with
    | VNone => Some TNone
    | VBool b => Some (TBool b)
    | VInt z => Some (TInt z)
    | VStr s => Some (TStr s)
    | VTuple vs => TTuple <$> mapM (reify n h) vs
    | VRef l =>
        match h !! l with
        | Some (ODict items) =>
            TDict <$> mapM (fun kv : string * value => pair kv.1 <$> reify n h kv.2) items
        | Some (OList elems) => TList <$> mapM (reify n h) elems
        | None => None
        end
    end.
Proof. reflexivity. Qed.

Lemma reify_prefix n : ∀ (h h' : list obj) v t,
  h `prefix_of` h' → reify n h v = Some t → reify n h' v = Some t.
Proof.
  induction n as [|n IH]; intros h h' v t Hp H; [done|].
  assert (Hm : ∀ vs ts, mapM (reify n h) vs = Some ts → mapM (reify n h') vs = Some ts).
  { intros vs ts. rewrite !mapM_Some. intros HF. eapply Forall2_impl; [exact HF|].
    intros x y. by apply IH. }
  destruct v as [| | | |vs|l]; simpl in *; try done.
  - destruct (mapM (reify n h) vs) as [ts|] eqn:Hvs; [|done].
    by rewrite (Hm _ _ Hvs).
  - destruct (h !! l) as [o|] eqn:Hl; [|done].
    rewrite (prefix_lookup_Some _ _ _ _ Hl Hp).
    destruct o as [items|elems].
    + destruct (mapM _ items) as [ts|] eqn:Hits; [|done].
      apply mapM_Some in Hits.
      assert (mapM (λ kv : string * value, pair kv.1 <$> reify n h' kv.2) items = Some ts)
        as ->; [|done].
      apply mapM_Some. eapply Forall2_impl; [done|]. intros [k x] y; simpl.
      destruct (reify n h x) as [tx|] eqn:Hx; [|done]. by rewrite (IH _ _ _ _ Hp Hx).
    + destruct (mapM (reify n h) elems) as [ts|] eqn:Hvs; [|done].
      by rewrite (Hm _ _ Hvs).
Qed.

Lemma reify_mono n : ∀ (h : list obj) v t,
  reify n h v = Some t → reify (S n) h v = Some t.
Proof.
  induction n as [|n IH]; intros h v t H; [done|].
  assert (Hm : ∀ vs ts, mapM (reify n h) vs = Some ts → mapM (reify (S n) h) vs = Some ts).
  { intros vs ts. rewrite !mapM_Some. intros HF. eapply Forall2_impl; [exact HF|].
    intros x y. by apply IH. }
  rewrite reify_S in H. rewrite (reify_S (S n)).
  destruct v as [| | | |vs|l]; try done.
  - destruct (mapM (reify n h) vs) as [ts|] eqn:Hvs; [|done].
    by rewrite (Hm _ _ Hvs).
  - destruct (h !! l) as [[items|elems]|] eqn:Hl; [| |done].
    + destruct (mapM _ items) as [ts|] eqn:Hits; [|done].
      apply mapM_Some in Hits.
      assert (mapM (λ kv : string * value, pair kv.1 <$> reify (S n) h kv.2) items = Some ts)
        as ->; [|done].
      apply mapM_Some. eapply Forall2_impl; [done|]. intros [k x] y; simpl fst; simpl snd.
      destruct (reify n h x) as [tx|] eqn:Hx; [|done]. by rewrite (IH _ _ _ Hx).
    + destruct (mapM (reify n h) elems) as [ts|] eqn:Hvs; [|done].
      by rewrite (Hm _ _ Hvs).
Qed.

Lemma reify_le n m (h : list obj) v t :
  n ≤ m → reify n h v = Some t → reify m h v = Some t.
Proof. induction 1 as [|m ? IHle]; [done|]. intros Hr. by apply reify_mono, IHle. Qed.

Lemma denotes_fun (h : list obj) v t1 t2 : denotes h v t1 → denotes h v t2 → t1 = t2.
Proof.
  intros [n1 H1] [n2 H2].
  apply (reify_le n1 (n1 `max` n2)) in H1; [|lia].
  apply (reify_le n2 (n1 `max` n2)) in H2; [|lia]. congruence.
Qed.


Lemma copy_of_prefix n (h h' : list obj) x x' :
  h `prefix_of` h' → copy_of n h x x' → copy_of n h' x x'.
Proof.
  intros Hp [(t & H1 & H2) Hs]. split; [|done].
  exists t. split; by eapply reify_prefix.
Qed.

Lemma copy_all_spec copy n :
  (∀ v (h : list obj) v' h', copy v h = Ok (v', h') → h `prefix_of` h' ∧ copy_of n h' v v') →
  ∀ vs (h : list obj) vs' h1,
    copy_all copy vs h = Ok (vs', h1) → h `prefix_of` h1 ∧ Forall2 (copy_of n h1) vs vs'.
Proof.
  intros Hc vs. induction vs as [|x vs IH]; intros h vs' h1 H; simpl in H.
  - inversion H; subst. split; [done|constructor].
  - destruct (copy x h) as [[x' ha]|] eqn:E1; [|done].
    destruct (copy_all copy vs ha) as [[vs'' hb]|] eqn:E2; [|done].
    inversion H; subst.
    destruct (Hc _ _ _ _ E1) as [Hp1 Hx]. destruct (IH _ _ _ E2) as [Hp2 Hvs].
    split; [by etrans|]. constructor; [|done]. by eapply copy_of_prefix.
Qed.

Lemma copy_of_mapM n (h : list obj) vs vs' :
  Forall2 (copy_of n h) vs vs' →
  ∃ ts, mapM (reify n h) vs = Some ts ∧ mapM (reify n h) vs' = Some ts.
Proof.
  induction 1 as [|x x' vs vs' [(t & H1 & H2) _] _ (ts & IH1 & IH2)].
  - by exists [].
  - exists (t :: ts). rewrite !mapM_Some in *. split; by constructor.
Qed.

Lemma copy_of_mapM_items n (h : list obj) (items : list (string * value)) vs' :
  Forall2 (copy_of n h) items.*2 vs' →
  ∃ ts, mapM (fun kv : string * value => pair kv.1 <$> reify n h kv.2) items = Some ts
        ∧ mapM (fun kv : string * value => pair kv.1 <$> reify n h kv.2)
               (zip items.*1 vs') = Some ts.
Proof.
  revert vs'. induction items as [|[k x] items IH]; intros vs' HF.
  - inversion HF; subst. by exists [].
  - inversion HF as [|? x' ? vs'' [(t & H1 & H2) _] HF']; subst.
    destruct (IH _ HF') as (ts & IH1 & IH2).
    exists ((k, t) :: ts). rewrite !mapM_Some in *. simpl.
    split; constructor; simpl; try done; by rewrite ?H1, ?H2.
Qed.

Lemma deepcopy_spec n : ∀ v (h : list obj) v' h',
  deepcopy n v h = Ok (v', h') → h `prefix_of` h' ∧ copy_of n h' v v'.
Proof.
  induction n as [|n IH]; intros v h v' h' H; [done|].
  pose proof (copy_all_spec (deepcopy n) n IH) as Hall.
  simpl in H. destruct v as [| | | |vs|l];
    try (inversion H; subst; split; [done|]; split; [by eexists|done]).
  - destruct (copy_all (deepcopy n) vs h) as [[vs' h1]|] eqn:E1; [|done].
    inversion H; subst. destruct (Hall _ _ _ _ E1) as [Hp HF].
    split; [done|]. split; [|done].
    destruct (copy_of_mapM _ _ _ _ HF) as (ts & H1 & H2).
    exists (TTuple ts). rewrite !reify_S. by rewrite H1, H2.
  - destruct (h !! l) as [[items|elems]|] eqn:Hl; [| |done].
    + destruct (copy_all (deepcopy n) items.*2 h) as [[vs' h1]|] eqn:E1; [|done].
      inversion H; subst. destruct (Hall _ _ _ _ E1) as [Hp HF].
      split; [etrans; [done|by apply prefix_app_r]|]. split; [|done].
      assert (HF' : Forall2 (copy_of n (h1 ++ [ODict (zip items.*1 vs')])) items.*2 vs').
      { eapply Forall2_impl; [done|]. intros x y.
        apply copy_of_prefix. by apply prefix_app_r. }
      destruct (copy_of_mapM_items _ _ _ _ HF') as (ts & H1 & H2).
      exists (TDict ts). rewrite !reify_S.
      rewrite (lookup_app_l_Some _ _ _ _ (prefix_lookup_Some _ _ _ _ Hl Hp)).
      rewrite lookup_app_r, Nat.sub_diag by done. simpl. by rewrite H1, H2.
    + destruct (copy_all (deepcopy n) elems h) as [[vs' h1]|] eqn:E1; [|done].
      inversion H; subst. destruct (Hall _ _ _ _ E1) as [Hp HF].
      split; [etrans; [done|by apply prefix_app_r]|]. split; [|done].
      assert (HF' : Forall2 (copy_of n (h1 ++ [OList vs'])) elems vs').
      { eapply Forall2_impl; [done|]. intros x y.
        apply copy_of_prefix. by apply prefix_app_r. }
      destruct (copy_of_mapM _ _ _ _ HF') as (ts & H1 & H2).
      exists (TList ts). rewrite !reify_S.
      rewrite (lookup_app_l_Some _ _ _ _ (prefix_lookup_Some _ _ _ _ Hl Hp)).
      rewrite lookup_app_r, Nat.sub_diag by done. simpl. by rewrite H1, H2.
Qed.

(** A copy that is a dict was made from a dict, item by item. *)
Lemma deepcopy_dict_inv n v (h : list obj) l' h' items' :
  deepcopy n v h = Ok (VRef l', h') →
  h' !! l' = Some (ODict items') →
  ∃ l items vs' h1 m,
    n = S m ∧ v = VRef l ∧ h !! l = Some (ODict items)
    ∧ h `prefix_of` h1 ∧ Forall2 (copy_of m h1) items.*2 vs'
    ∧ l' = List.length h1 ∧ h' = h1 ++ [ODict items'] ∧ items' = zip items.*1 vs'.
Proof.
  intros H Hl'. destruct n as [|m]; [done|]. simpl in H.
  destruct v as [| | | |vs|l]; try done.
  { by destruct (copy_all (deepcopy m) vs h) as [[? ?]|]. }
  destruct (h !! l) as [[items|elems]|] eqn:Hl; [| |done].
  - destruct (copy_all (deepcopy m) items.*2 h) as [[vs' h1]|] eqn:E1; [|done].
    inversion H; subst.
    rewrite lookup_app_r, Nat.sub_diag in Hl' by done. inversion Hl'; subst.
    destruct (copy_all_spec (deepcopy m) m (deepcopy_spec m) _ _ _ _ E1) as [Hp HF].
    by eexists l, items, vs', h1, m.
  - destruct (copy_all (deepcopy m) elems h) as [[vs' h1]|] eqn:E1; [|done].
    inversion H; subst.
    rewrite lookup_app_r, Nat.sub_diag in Hl' by done. by inversion Hl'.
Qed.

(** ** The [connection] property, case by case *)

Section Connection.

Variable E : Env.

Lemma connection_hit (self : FileDataset) (w : World) key c :
  cache_key E self w = Ok key →
  is_hashable key = true →
  reg_get key (_connections w) = Some c →
  connection E self w = (Ok c, w).
Proof.
  unfold cache_key, connection. intros Hk Hh Hg.
  rewrite bind_run. unfold get_world at 1. cbv beta iota.
  rewrite bind_run. unfold lift at 1. rewrite Hk. cbv beta iota.
  rewrite bind_run. unfold contains at 1. rewrite Hh, Hg.
  rewrite bool_decide_true by (by eexists). cbv beta iota.
  rewrite bind_run. unfold mret at 1, M_ret at 1. cbv beta iota.
  unfold getitem. by rewrite Hh, Hg.
Qed.

Lemma connection_inv (self : FileDataset) (w : World) r w' :
  connection E self w = (r, w') →
  (∃ key c, cache_key E self w = Ok key ∧ is_hashable key = true
     ∧ reg_get key (_connections w) = Some c ∧ r = Ok c ∧ w' = w)
  ∨ (∃ key l' h' items name,
       cache_key E self w = Ok key ∧ is_hashable key = true
       ∧ reg_get key (_connections w) = None
       ∧ deepcopy (recursion_limit E) (_connection_config self) (store w)
         = Ok (VRef l', h')
       ∧ h' !! l' = Some (ODict items)
       ∧ dict_get "backend" items = Some (VStr name)
       ∧ ibis_has E name = true
       ∧ r = Ok (next_handle w)
       ∧ w' = miss_world w h' l' items name key)
  ∨ (∃ e, r = Raise e ∧ _connections w' = _connections w
          ∧ next_handle w' = next_handle w ∧ fs w' = fs w).
Proof.
  unfold cache_key, connection. intros H.
  rewrite bind_run in H. unfold get_world at 1 in H. cbv beta iota in H.
  rewrite bind_run in H. unfold lift at 1 in H.
  destruct (hashable (recursion_limit E) (store w) (_connection_config self))
    as [key|e] eqn:Hk; cbv beta iota in H;
    [|inversion H; subst; right; right; by eexists].
  rewrite bind_run in H. unfold contains at 1 in H.
  destruct (is_hashable key) eqn:Hh; cbv beta iota in H;
    [|inversion H; subst; right; right; by eexists].
  rewrite bind_run in H.
  destruct (reg_get key (_connections w)) as [c|] eqn:Hg.
  - rewrite bool_decide_true in H by (by eexists).
    unfold mret at 1, M_ret at 1 in H. cbv beta iota in H.
    unfold getitem in H. rewrite Hh, Hg in H. inversion H; subst.
    left. by eexists _, _.
  - rewrite bool_decide_false in H by (by intros [? ?]).
    rewrite bind_run in H. unfold deepcopy_m at 1 in H.
    destruct (deepcopy (recursion_limit E) (_connection_config self) (store w))
      as [[config h']|e] eqn:Hd; cbv beta iota in H;
      [|inversion H; subst; right; right; by eexists].
    rewrite bind_run in H. unfold pop at 1 in H.
    destruct config as [| | | | |l'];
      try (inversion H; subst; right; right; by eexists).
    simpl in H.
    destruct (h' !! l') as [[items|]|] eqn:Hl';
      try (inversion H; subst; right; right; by eexists).
    destruct (dict_get "backend" items) as [name|] eqn:Hb;
      [|inversion H; subst; right; right; by eexists].
    rewrite bind_run in H. unfold ibis_getattr at 1 in H.
    destruct name as [| | |name| |];
      try (inversion H; subst; right; right; by eexists).
    rewrite bind_run in H. unfold emit at 1 in H. cbv beta iota in H.
    destruct (ibis_has E name) eqn:Hi;
      [|inversion H; subst; right; right; by eexists].
    unfold mret at 1, M_ret at 1 in H. cbv beta iota in H.
    rewrite bind_run in H. unfold backend_connect at 1 in H.
    rewrite bind_run in H. unfold unpack at 1 in H. simpl in H.
    rewrite list_lookup_insert_eq in H by (by eapply lookup_lt_Some).
    rewrite bind_run in H. unfold get_world at 1 in H. cbv beta iota in H.
    rewrite bind_run in H. unfold emit at 1 in H. cbv beta iota in H.
    match type of H with context [connect_fails E ?a ?b ?c] =>
      destruct (connect_fails E a b c) as [e|] eqn:Hc end.
    + inversion H; subst; right; right; by eexists.
    + unfold setitem, getitem in H. simpl in H. rewrite Hh in H.
      rewrite (reg_set_new _ _ _ Hg) in H. simpl in H.
      rewrite reg_get_app, Hg in H. simpl in H. rewrite py_eqb_refl in H.
      inversion H; subst. right; left.
      eexists key, l', h', items, name. repeat (split; [done|]).
      unfold miss_world. by rewrite <- app_assoc.
Qed.

End Connection.
(** ** A miss *)

Lemma copies_entries m (h : list obj) (items : list (string * value)) vs' :
  Forall2 (copy_of m h) items.*2 vs' →
  Forall2 (fun kv kv' : string * value => kv.1 = kv'.1 ∧ copy_of m h kv.2 kv'.2)
          items (zip items.*1 vs').
Proof.
  revert vs'. induction items as [|[k x] items IH]; intros vs' HF;
    inversion HF; subst; simpl; constructor; auto.
Qed.




(** ** Loading *)

(** C6. [load] asks the versioning layer for the load path first and lets
    its [DatasetError] through; with a path in hand it obtains the
    connection and calls its [read_<file_format>] with the path, the table
    name and the items of the adapter's load arguments, and returns what
    that call returns. *)
Theorem load_calls_reader (E : Env) (self : FileDataset) (w : World) :
  (get_load_path E self w = Raise DatasetError →
     load E self w = (Raise DatasetError, snd (emit EGetLoadPath w)))
  ∧ (∀ p c w1 l kwargs,
       get_load_path E self w = Ok p →
       connection E self (snd (emit EGetLoadPath w)) = (Ok c, w1) →
       conn_has E c ("read_" +:+ _file_format self) = true →
       _load_args self = VRef l →
       store w1 !! l = Some (ODict kwargs) →
       let reader := "read_" +:+ _file_format self in
       let w2 := snd (emit (EConnAttr c reader) w1) in
       load E self w =
         (conn_read E c reader p (_table_name self) kwargs w2,
          snd (emit (ERead c reader p (_table_name self) kwargs) w2))).
Proof.
  split.
  - intros H. unfold load, _get_load_path. run_step. by rewrite H.
  - intros p c w1 l kwargs Hp Hc Hr Hl Hs reader w2.
    unfold load. rewrite bind_run.
    assert (_get_load_path E self w = (Ok p, snd (emit EGetLoadPath w))) as ->.
    { unfold _get_load_path. run_step. by rewrite Hp. }
    cbv beta iota. rewrite bind_run, Hc. cbv beta iota.
    rewrite bind_run. unfold conn_getattr at 1. rewrite bind_run.
    unfold emit at 1. cbv beta iota. rewrite Hr.
    unfold mret at 1, M_ret at 1. cbv beta iota.
    rewrite bind_run. rewrite Hl. unfold unpack at 1. simpl store. rewrite Hs.
    cbv beta iota. rewrite bind_run. unfold get_world at 1. cbv beta iota.
    rewrite bind_run. unfold emit at 1. cbv beta iota. reflexivity.
Qed.

Lemma load_calls_reader_witness :
  let w0 := snd (emit EGetLoadPath sample_world) in
  let w1 := snd (connection sample_env sample_dataset w0) in
  let w2 := snd (emit (EConnAttr 0 "read_csv") w1) in
  load unversioned_env sample_dataset sample_world = (Raise DatasetError, w0)
  ∧ load sample_env sample_dataset sample_world =
      (conn_read sample_env 0 "read_csv" ["data"; "a.csv"] None [] w2,
       snd (emit (ERead 0 "read_csv" ["data"; "a.csv"] None []) w2)).
Proof.
  split.
  - apply (proj1 (load_calls_reader unversioned_env sample_dataset sample_world)).
    reflexivity.
  - apply (proj2 (load_calls_reader sample_env sample_dataset sample_world)
             ["data"; "a.csv"] 0
             (snd (connection sample_env sample_dataset
                     (snd (emit EGetLoadPath sample_world)))) 3 []);
      vm_compute; reflexivity.
Defined.

(** ** Saving *)




(** ** The registry only grows *)

Lemma grows_refl w : grows w w.
Proof. by split. Qed.

Lemma grows_trans w1 w2 w3 : grows w1 w2 → grows w2 w3 → grows w1 w3.
Proof. intros [H1 H1'] [H2 H2']. split; auto. Qed.

Lemma grows_same w w' :
  _connections w' = _connections w → next_handle w' = next_handle w → grows w w'.
Proof. intros Hr Hn. unfold grows, reg_inv. rewrite Hr, Hn. by split. Qed.

Lemma grows_bind {A B} (m : M A) (f : A → M B) :
  (∀ w, grows w (snd (m w))) → (∀ a w, grows w (snd (f a w))) →
  ∀ w, grows w (snd ((m ≫= f) w)).
Proof.
  intros Hm Hf w. rewrite bind_run. specialize (Hm w).
  destruct (m w) as [[a|e] w1]; simpl in *; [|done].
  eapply grows_trans; [done|apply Hf].
Qed.

Lemma grows_deepcopy_m E v w : grows w (snd (deepcopy_m E v w)).
Proof.
  unfold deepcopy_m. destruct (deepcopy _ _ _) as [[? ?]|]; by apply grows_same.
Qed.

Lemma grows_update d o w : grows w (snd (update d o w)).
Proof.
  unfold update. destruct d as [| | | | |l], o as [| | | | |l']; try apply grows_refl.
  destruct (store w !! l) as [[?|?]|], (store w !! l') as [[?|?]|];
    by apply grows_same.
Qed.

Lemma grows_init E p f t conn la sa v m w :
  grows w (snd (__init__ E p f t conn la sa v m w)).
Proof.
  unfold __init__. revert w.
  apply grows_bind; [intros; apply grows_refl|]. intros w0.
  apply grows_bind; [apply grows_deepcopy_m|]. intros la'.
  apply grows_bind.
  { intros w. destruct la; try apply grows_update. apply grows_refl. }
  intros _. apply grows_bind; [apply grows_deepcopy_m|]. intros sa'.
  apply grows_bind.
  { intros w. destruct sa; try apply grows_update. apply grows_refl. }
  intros _ w. apply grows_refl.
Qed.

Lemma grows_connection E self w : grows w (snd (connection E self w)).
Proof.
  destruct (connection E self w) as [r w'] eqn:H.
  destruct (connection_inv E self w _ _ H)
    as [(? & ? & _ & _ & _ & _ & ->)
       |[(key & l' & h' & items & name & _ & _ & Hg & _ & _ & _ & _ & _ & ->)
        |(e & _ & Hr & Hn & _)]]; simpl.
  - apply grows_refl.
  - split; simpl.
    + intros k c Hk. by rewrite reg_get_app, Hk.
    + intros [Hlt Hnd]. split; simpl.
      * apply Forall_app. split; [|by repeat constructor].
        eapply Forall_impl; [done|]. simpl. lia.
      * rewrite fmap_app. simpl. apply NoDup_app. split; [done|].
        split; [|apply NoDup_singleton].
        intros c Hc Hc'%list_elem_of_singleton.
        apply list_elem_of_fmap in Hc as ([k c'] & Heq & Hin).
        rewrite Forall_forall in Hlt. specialize (Hlt _ Hin). simpl in *. lia.
  - by apply grows_same.
Qed.

Lemma grows_get_path E (g : Env → FileDataset → World → result (list string)) ev self w :
  grows w (snd ((w ← get_world; emit ev;; lift (g E self w)) w)).
Proof. apply grows_same; run_step; by destruct (g E self w). Qed.

Lemma grows_load E self w : grows w (snd (load E self w)).
Proof.
  unfold load. revert w.
  apply grows_bind; [apply grows_get_path|]. intros p.
  apply grows_bind; [apply grows_connection|]. intros c.
  apply grows_bind.
  { intros w. apply grows_same; unfold conn_getattr; run_step; by repeat case_match. }
  intros reader. apply grows_bind.
  { intros w. apply grows_same; unfold unpack;
      destruct (_load_args self) as [| | | | |l]; try done;
      by destruct (store w !! l) as [[?|?]|]. }
  intros kwargs w. apply grows_same; run_step; by repeat case_match.
Qed.

Lemma grows_save E self data w : grows w (snd (save E self data w)).
Proof.
  unfold save. revert w.
  apply grows_bind; [apply grows_get_path|]. intros p.
  apply grows_bind.
  { intros w. apply grows_same; unfold mkdir; simpl; by destruct (mkdir_from _ _ _). }
  intros _. apply grows_bind; [apply grows_connection|]. intros c.
  apply grows_bind.
  { intros w. apply grows_same; unfold conn_getattr; run_step; by repeat case_match. }
  intros writer. apply grows_bind.
  { intros w. apply grows_same; unfold unpack;
      destruct (_save_args self) as [| | | | |l]; try done;
      by destruct (store w !! l) as [[?|?]|]. }
  intros kwargs w. apply grows_same; run_step; by repeat case_match.
Qed.

Lemma grows_run_op E o w : grows w (run_op E o w).
Proof.
  destruct o; simpl.
  - apply grows_init.
  - apply grows_connection.
  - apply grows_load.
  - apply grows_save.
  - rewrite describe_world. apply grows_refl.
  - apply grows_same; unfold _exists, _get_load_path; run_step;
      by destruct (get_load_path E self w) as [?|[]].
  - by apply grows_same.
  - by apply grows_same.
Qed.

Lemma grows_run_ops E ops : ∀ w, grows w (run_ops E ops w).
Proof.
  induction ops as [|o ops IH]; intros w; [apply grows_refl|].
  simpl. eapply grows_trans; [apply grows_run_op|apply IH].
Qed.

Lemma is_hashable_canon v : is_hashable (canon v) = is_hashable v.
Proof.
  induction v as [| | | |vs IH|] using value_ind'; try done.
  simpl. induction IH as [|x xs Hx _ IHxs]; [done|]. simpl. by rewrite Hx, IHxs.
Qed.

Lemma is_hashable_eqb a b : py_eqb a b = true → is_hashable a = is_hashable b.
Proof.
  intros H%py_eqb_canon. by rewrite <- (is_hashable_canon a), H, is_hashable_canon.
Qed.

Lemma connection_stored (E : Env) self w c w' key :
  connection E self w = (Ok c, w') →
  cache_key E self w = Ok key →
  is_hashable key = true ∧ reg_get key (_connections w') = Some c.
Proof.
  intros H Hk.
  destruct (connection_inv E self w _ _ H)
    as [(key' & c' & Hk' & Hh & Hg & Hc & ->)
       |[(key' & l' & h' & items' & name & Hk' & Hh & Hg & _ & _ & _ & _ & Hc & ->)
        |(e & ? & _)]]; [| |done].
  - assert (key' = key) as -> by congruence. split; [done|congruence].
  - assert (key' = key) as -> by congruence. split; [done|]. simpl.
    rewrite reg_get_app, Hg. simpl. rewrite py_eqb_refl. congruence.
Qed.

(** C1. Once [connection] has returned a handle for a configuration, it
    returns that handle for every configuration with an equal key, whatever
    methods of the class and whatever client code ran in between: the entry
    stays in [_connections], and the later call leaves the world as it
    is. *)
Theorem connection_identity (E : Env) (a1 a2 : FileDataset) (w w1 : World)
    (c : nat) (ops : list op) (key1 key2 : value) :
  connection E a1 w = (Ok c, w1) →
  cache_key E a1 w = Ok key1 →
  cache_key E a2 (run_ops E ops w1) = Ok key2 →
  py_eqb key1 key2 = true →
  reg_get key1 (_connections (run_ops E ops w1)) = Some c
  ∧ connection E a2 (run_ops E ops w1) = (Ok c, run_ops E ops w1).
Proof.
  intros Hc Hk1 Hk2 Heq.
  destruct (connection_stored E a1 w c w1 key1 Hc Hk1) as [Hh Hg].
  pose proof (proj1 (grows_run_ops E ops w1) _ _ Hg) as Hg2.
  split; [done|]. apply (connection_hit E a2 _ key2); [done| |].
  - by rewrite <- (is_hashable_eqb _ _ Heq).
  - by rewrite <- (reg_get_eqb _ _ _ Heq).
Qed.
Lemma connection_identity_witness :
  let w1 := snd (connection sample_env sample_dataset reordered_world) in
  let w2 := run_ops sample_env [OpSave sample_dataset 3; OpExists reordered_dataset] w1 in
  reg_get default_key (_connections w2) = Some 0
  ∧ connection sample_env reordered_dataset w2 = (Ok 0, w2).
Proof.
  apply (connection_identity sample_env sample_dataset reordered_dataset reordered_world
           (snd (connection sample_env sample_dataset reordered_world)) 0
           [OpSave sample_dataset 3; OpExists reordered_dataset]
           default_key default_key);
    vm_compute; reflexivity.
Defined.

(** ** Distinct keys, distinct handles *)

Lemma reg_inv_world0 : reg_inv world0.
Proof. split; simpl; constructor. Qed.

Lemma NoDup_snd_inj {A B} (l : list (A * B)) k1 k2 c :
  NoDup l.*2 → (k1, c) ∈ l → (k2, c) ∈ l → k1 = k2.
Proof.
  induction l as [|[k0 c0] l IH]; simpl; intros Hnd H1 H2.
  - by apply elem_of_nil in H1.
  - apply NoDup_cons in Hnd as [Hnotin Hnd].
    apply elem_of_cons in H1 as [[= -> ->]|H1], H2 as [[= ->]|H2].
    + done.
    + exfalso. apply Hnotin. apply list_elem_of_fmap. by exists (k2, c0).
    + subst. exfalso. apply Hnotin. apply list_elem_of_fmap. by exists (k1, c0).
    + by apply IH.
Qed.

(** C3, as the code has it.  In a run that starts when the module is
    imported, two calls of [connection] whose cache keys are not equal
    return two different handles, each stored under its key. *)
Theorem distinct_keys_distinct_handles (E : Env) (ops0 ops : list op)
    (a1 a2 : FileDataset) (c1 c2 : nat) (w1 w2 : World) (key1 key2 : value) :
  connection E a1 (run_ops E ops0 world0) = (Ok c1, w1) →
  connection E a2 (run_ops E ops w1) = (Ok c2, w2) →
  cache_key E a1 (run_ops E ops0 world0) = Ok key1 →
  cache_key E a2 (run_ops E ops w1) = Ok key2 →
  py_eqb key1 key2 = false →
  c1 ≠ c2
  ∧ reg_get key1 (_connections w2) = Some c1
  ∧ reg_get key2 (_connections w2) = Some c2.
Proof.
  intros Hc1 Hc2 Hk1 Hk2 Hne.
  destruct (connection_stored E a1 _ c1 w1 key1 Hc1 Hk1) as [_ Hg1].
  destruct (connection_stored E a2 _ c2 w2 key2 Hc2 Hk2) as [_ Hg2].
  pose proof (grows_connection E a1 (run_ops E ops0 world0)) as G1. rewrite Hc1 in G1.
  pose proof (grows_connection E a2 (run_ops E ops w1)) as G2. rewrite Hc2 in G2.
  simpl in G1, G2.
  assert (G : grows w1 w2).
  { eapply grows_trans; [apply grows_run_ops|done]. }
  assert (Hinv : reg_inv w2).
  { apply G, G1, grows_run_ops, reg_inv_world0. }
  apply (proj1 G) in Hg1. split; [|done].
  intros ->.
  destruct (reg_get_elem _ _ _ Hg1) as (k1 & Hin1 & He1).
  destruct (reg_get_elem _ _ _ Hg2) as (k2 & Hin2 & He2).
  assert (k1 = k2) as -> by (eapply NoDup_snd_inj; [apply Hinv|done..]).
  rewrite py_eqb_sym in He1.
  by rewrite (py_eqb_trans _ _ _ He1 He2) in Hne.
Qed.

Lemma distinct_keys_distinct_handles_witness :
  let w1 := snd (connection sample_env (twin_dataset 4)
                   (run_ops sample_env [OpStore twin_store] world0)) in
  let w2 := snd (connection sample_env (twin_dataset 0) (run_ops sample_env [] w1)) in
  0 ≠ 1
  ∧ reg_get (VTuple [VTuple [VStr "backend"; VStr "duckdb"];
                     VTuple [VStr "opts"; VTuple [VTuple [VStr "a"; VInt 1]]]])
            (_connections w2) = Some 0
  ∧ reg_get default_key (_connections w2) = Some 1.
Proof.
  apply (distinct_keys_distinct_handles sample_env [OpStore twin_store] []
           (twin_dataset 4) (twin_dataset 0) 0 1
           (snd (connection sample_env (twin_dataset 4)
                   (run_ops sample_env [OpStore twin_store] world0)))
           (snd (connection sample_env (twin_dataset 0)
                   (run_ops sample_env []
                      (snd (connection sample_env (twin_dataset 4)
                              (run_ops sample_env [OpStore twin_store] world0))))))
           (VTuple [VTuple [VStr "backend"; VStr "duckdb"];
                    VTuple [VStr "opts"; VTuple [VTuple [VStr "a"; VInt 1]]]])
           default_key);
    vm_compute; reflexivity.
Defined.

(** C3 does not hold for every differing nested value: a configuration
    whose [opts] is the dict [{"a": 1}] and one whose [opts] is the list
    [[["a", 1]]] differ in a nested value and get one key, hence one
    handle. *)
Lemma twin_configs_share_handle :
  let w := with_store twin_store in
  let w1 := snd (connection sample_env (twin_dataset 4) w) in
  reify 5 twin_store (VRef 4)
    = Some (TDict [("backend", TStr "duckdb"); ("opts", TDict [("a", TInt 1)])])
  ∧ reify 5 twin_store (VRef 7)
    = Some (TDict [("backend", TStr "duckdb");
                   ("opts", TList [TList [TStr "a"; TInt 1]])])
  ∧ cache_key sample_env (twin_dataset 4) w = cache_key sample_env (twin_dataset 7) w1
  ∧ fst (connection sample_env (twin_dataset 4) w) = Ok 0
  ∧ fst (connection sample_env (twin_dataset 7) w1) = Ok 0
  ∧ List.length (_connections (snd (connection sample_env (twin_dataset 7) w1))) = 1.
Proof. vm_compute. repeat split. Qed.
(** ** [hashable] against the normalization of the specification *)

Lemma hashable_S n (h : list obj) v :
  hashable (S n) h v =
    match v with
    | VRef l =>
        match h !! l with
        | Some (ODict items) =>
            VTuple <$> mapM (fun kv : string * value =>
                               hv ← hashable n h kv.2;
                               mret (VTuple [VStr kv.1; hv]))
                            (sorted item_lt items)
        | Some (OList elems) => VTuple <$> mapM (hashable n h) elems
        | None => Raise NoSuchObject
        end
    | _ => Ok v
    end.
Proof. reflexivity. Qed.

Lemma mapM_Ok {A B} (f : A → result B) l k :
  Forall2 (fun x y => f x = Ok y) l k → mapM f l = Ok k.
Proof.
  induction 1 as [|x y l k Hx _ IH]; [done|].
  simpl. rewrite Hx. simpl. rewrite IH. done.
Qed.

Lemma insert_sorted_Forall2 {A B} (R : string * A → string * B → Prop) x y l l' :
  (∀ a b, R a b → a.1 = b.1) →
  R x y → Forall2 R l l' →
  Forall2 R (insert_sorted item_lt x l) (insert_sorted item_lt y l').
Proof.
  intros HR Hxy. induction 1 as [|a b l l' Hab HF IH]; simpl.
  - by repeat constructor.
  - unfold item_lt at 1 3. rewrite (HR _ _ Hxy), (HR _ _ Hab).
    destruct (String.ltb b.1 y.1).
    + constructor; [done|apply IH].
    + constructor; [done|]. by constructor.
Qed.

Lemma sorted_Forall2 {A B} (R : string * A → string * B → Prop) l l' :
  (∀ a b, R a b → a.1 = b.1) →
  Forall2 R l l' → Forall2 R (sorted item_lt l) (sorted item_lt l').
Proof.
  intros HR. induction 1; simpl; [constructor|]. by apply insert_sorted_Forall2.
Qed.

Lemma insert_sorted_map {A B} (g : string * A → string * B) x l :
  (∀ a, (g a).1 = a.1) →
  insert_sorted item_lt (g x) (map g l) = map g (insert_sorted item_lt x l).
Proof.
  intros Hg. induction l as [|a l IH]; [done|]. simpl.
  unfold item_lt at 1 3. rewrite !Hg.
  destruct (String.ltb a.1 x.1); simpl; by rewrite ?IH.
Qed.

(** Normalizing the values and sorting by key can be done in either
    order. *)
Lemma sorted_map {A B} (g : string * A → string * B) l :
  (∀ a, (g a).1 = a.1) →
  sorted item_lt (map g l) = map g (sorted item_lt l).
Proof.
  intros Hg. unfold sorted. induction l as [|a l IH]; [done|]. simpl.
  rewrite IH. by apply insert_sorted_map.
Qed.

Lemma denotes_tuple (h : list obj) keys ts :
  Forall2 (denotes h) keys ts → denotes h (VTuple keys) (TTuple ts).
Proof.
  intros HF.
  assert (∃ n, Forall2 (fun k t => reify n h k = Some t) keys ts) as [n Hn].
  { induction HF as [|k t keys ts [n1 H1] _ [n2 IH]]; [exists 0; constructor|].
    exists (n1 `max` n2). constructor.
    - apply (reify_le n1); [lia|done].
    - eapply Forall2_impl; [done|]. intros x y Hxy. apply (reify_le n2); [lia|done]. }
  exists (S n). rewrite reify_S. apply mapM_Some in Hn. by rewrite Hn.
Qed.

Lemma normalize_spec_dict (titems : list (string * tree)) :
  normalize_spec (TDict titems) =
    TTuple (map (fun kt : string * tree => TTuple [TStr kt.1; normalize_spec kt.2])
                (sorted item_lt titems)).
Proof.
  simpl. f_equal.
  rewrite (sorted_map (fun kt : string * tree => (kt.1, normalize_spec kt.2))) by done.
  by rewrite map_map.
Qed.

(** On a configuration that stands for the tree [t],
    [hashable] returns a value that stands for the normalization of [t] as
    the specification words it. *)
Lemma hashable_normalizes n : ∀ (h : list obj) v t,
  reify n h v = Some t →
  ∃ key, hashable n h v = Ok key ∧ denotes h key (normalize_spec t).
Proof.
  induction n as [|n IH]; intros h v t H; [done|].
  rewrite reify_S in H. rewrite hashable_S.
  destruct v as [| | | |vs|l];
    try (inversion H; subst; eexists; split; [done|]; by exists 1).
  - destruct (mapM (reify n h) vs) as [ts|] eqn:Hvs; [|done].
    inversion H; subst. eexists; split; [done|].
    exists (S n). rewrite reify_S. by rewrite Hvs.
  - destruct (h !! l) as [[items|elems]|] eqn:Hl; [| |done].
    + destruct (mapM _ items) as [titems|] eqn:Hits; [|done].
      inversion H; subst t. apply mapM_Some in Hits.
      assert (HF : Forall2 (fun (kv : string * value) (kt : string * tree) =>
                              kv.1 = kt.1 ∧ reify n h kv.2 = Some kt.2)
                           (sorted item_lt items) (sorted item_lt titems)).
      { apply sorted_Forall2; [by intros ? ? [? ?]|].
        eapply Forall2_impl; [done|]. intros [k x] [k' y]; simpl.
        destruct (reify n h x); [|done]. by intros [= -> ->]. }
      rewrite normalize_spec_dict.
      revert HF. generalize (sorted item_lt items) (sorted item_lt titems).
      intros sitems stitems HF.
      assert (∃ keys,
        Forall2 (fun (kv : string * value) key =>
                   (hv ← hashable n h kv.2; mret (VTuple [VStr kv.1; hv])) = Ok key)
                sitems keys
        ∧ Forall2 (denotes h) keys
            (map (fun kt : string * tree => TTuple [TStr kt.1; normalize_spec kt.2])
                 stitems)) as (keys & Hk1 & Hk2).
      { induction HF as [|[k x] [k' tx] sitems stitems [Hkk Hx] HF' IH'].
        - exists []. split; constructor.
        - simpl in Hkk, Hx. subst k'. destruct IH' as (keys & IH1 & IH2).
          destruct (IH _ _ _ Hx) as (key & Hkey & Hden).
          exists (VTuple [VStr k; key] :: keys). split.
          + constructor; [|done]. simpl. by rewrite Hkey.
          + simpl. constructor; [|done].
            apply denotes_tuple. repeat constructor; [by exists 1|done]. }
      exists (VTuple keys). rewrite (mapM_Ok _ _ _ Hk1). split; [done|].
      by apply denotes_tuple.
    + destruct (mapM (reify n h) elems) as [ts|] eqn:Hvs; [|done].
      inversion H; subst t. apply mapM_Some in Hvs.
      assert (∃ keys, Forall2 (fun x key => hashable n h x = Ok key) elems keys
                      ∧ Forall2 (denotes h) keys (map normalize_spec ts))
        as (keys & Hk1 & Hk2).
      { clear Hl H. induction Hvs as [|x tx elems ts Hx Hvs' IH'].
        - exists []. split; constructor.
        - destruct IH' as (keys & IH1 & IH2).
          destruct (IH _ _ _ Hx) as (key & Hkey & Hden).
          exists (key :: keys). split; by constructor. }
      exists (VTuple keys). rewrite (mapM_Ok _ _ _ Hk1). split; [done|].
      simpl. by apply denotes_tuple.
Qed.

Lemma mapM_ext_Forall {A B} (f g : A → option B) l :
  Forall (fun x => f x = g x) l → mapM f l = mapM g l.
Proof. induction 1 as [|x l Hx _ IH]; [done|]. simpl. by rewrite Hx, IH. Qed.

(** What a hashable value stands for does not depend on the store. *)
Lemma reify_hashable_store n : ∀ (h1 h2 : list obj) k,
  is_hashable k = true → reify n h1 k = reify n h2 k.
Proof.
  induction n as [|n IH]; intros h1 h2 k Hk; [done|].
  rewrite !reify_S. destruct k as [| | | |vs|l]; try done.
  simpl in Hk. f_equal. apply mapM_ext_Forall.
  rewrite forallb_forall in Hk. apply Forall_forall.
  intros x Hx. apply IH, Hk. by apply list_elem_of_In.
Qed.

(** Two hashable values that stand for one tree are one value. *)
Lemma reify_hashable_inj k1 : ∀ k2 n1 n2 (h : list obj) t,
  is_hashable k1 = true → is_hashable k2 = true →
  reify n1 h k1 = Some t → reify n2 h k2 = Some t → k1 = k2.
Proof.
  induction k1 as [|b1|z1|s1|vs1 IH|l1] using value_ind';
    intros k2 [|n1] [|n2] h t Hh1 Hh2 H1 H2; try done;
    rewrite reify_S in H1; rewrite reify_S in H2;
    destruct k2 as [| | | |vs2|l2]; try done; simpl in *;
    try congruence;
    try (destruct (mapM (reify n2 h) vs2); simpl in *; congruence);
    try (destruct (mapM (reify n1 h) vs1); simpl in *; congruence).
  destruct (mapM (reify n1 h) vs1) as [ts1|] eqn:E1; [|done].
  destruct (mapM (reify n2 h) vs2) as [ts2|] eqn:E2; [|done].
  simpl in *. assert (ts2 = ts1) as -> by congruence.
  apply mapM_Some in E1, E2. f_equal.
  clear H1 H2. revert vs2 ts1 Hh1 Hh2 E1 E2.
  induction IH as [|x vs1 Hx _ IHvs]; intros vs2 ts Hh1 Hh2 E1 E2.
  - inversion E1; subst. by inversion E2.
  - inversion E1 as [|? tx ? ts' Hx1 E1']; subst.
    inversion E2 as [|y ? vs2' ? Hy E2']; subst.
    simpl in Hh1, Hh2. apply andb_true_iff in Hh1 as [Hx' Hh1], Hh2 as [Hy' Hh2].
    f_equal; [by eapply Hx|by eapply IHvs].
Qed.

(** C2. [hashable] computes the normalization the specification words: on
    a configuration that stands for the tree [t] it returns a key that
    stands for [normalize_spec t], where a dict has become the tuple of
    its (key, normalized value) pairs sorted by key, a list the tuple of
    its normalized elements, and anything else is kept.  Two
    configurations get the same key exactly when their normalizations
    are equal. *)
Theorem hashable_refines_spec :
  (∀ n (h : list obj) v t,
     reify n h v = Some t →
     ∃ key, hashable n h v = Ok key ∧ denotes h key (normalize_spec t))
  ∧ (∀ n1 n2 (h1 h2 : list obj) v1 v2 t1 t2 key1 key2,
       reify n1 h1 v1 = Some t1 → reify n2 h2 v2 = Some t2 →
       hashable n1 h1 v1 = Ok key1 → hashable n2 h2 v2 = Ok key2 →
       is_hashable key1 = true → is_hashable key2 = true →
       (key1 = key2 ↔ normalize_spec t1 = normalize_spec t2)).
Proof.
  split; [apply hashable_normalizes|].
  intros n1 n2 h1 h2 v1 v2 t1 t2 key1 key2 Hr1 Hr2 Hk1 Hk2 Hh1 Hh2.
  destruct (hashable_normalizes _ _ _ _ Hr1) as (k1 & Hk1' & [m1 Hd1]).
  destruct (hashable_normalizes _ _ _ _ Hr2) as (k2 & Hk2' & [m2 Hd2]).
  assert (k1 = key1) as -> by congruence. assert (k2 = key2) as -> by congruence.
  rewrite (reify_hashable_store m2 h2 h1 key2 Hh2) in Hd2.
  split.
  - intros ->. apply (denotes_fun h1 key2); by eexists.
  - intros Heq. rewrite Heq in Hd1. by eapply reify_hashable_inj.
Qed.

Lemma hashable_refines_spec_witness :
  (∃ key, hashable 5 twin_store (VRef 4) = Ok key
          ∧ denotes twin_store key
              (normalize_spec
                 (TDict [("backend", TStr "duckdb"); ("opts", TDict [("a", TInt 1)])])))
  ∧ (default_key = default_key ↔
     normalize_spec (TDict [("backend", TStr "duckdb"); ("database", TStr ":memory:")])
     = normalize_spec (TDict [("database", TStr ":memory:"); ("backend", TStr "duckdb")])).
Proof.
  split.
  - apply (proj1 hashable_refines_spec 5 twin_store (VRef 4)). reflexivity.
  - apply (proj2 hashable_refines_spec 3 3 (store sample_world) (store reordered_world)
             (VRef 0) (VRef 5)); reflexivity.
Defined.
(** ** The order of the keys of a dict does not matter *)

Lemma ltb_Lt a b : String.ltb a b = true ↔ String.compare a b = Lt.
Proof. unfold String.ltb. by destruct (String.compare a b). Qed.

Lemma ltb_trans a b c :
  String.ltb a b = true → String.ltb b c = true → String.ltb a c = true.
Proof.
  rewrite !ltb_Lt. change String.compare with String_as_OT.cmp.
  rewrite !String_as_OT.cmp_lt. apply String_as_OT.lt_trans.
Qed.

Lemma ltb_irrefl a : String.ltb a a = false.
Proof.
  apply not_true_is_false. rewrite ltb_Lt.
  pose proof (proj2 (String_as_OT.cmp_eq a a) eq_refl) as H.
  unfold String_as_OT.cmp in H. by rewrite H.
Qed.

Lemma ltb_total a b : a ≠ b → String.ltb a b = false → String.ltb b a = true.
Proof.
  intros Hne Hab. apply ltb_Lt.
  pose proof (String_as_OT.cmp_antisym a b) as Hs. unfold String_as_OT.cmp in Hs.
  destruct (String.compare a b) eqn:Hc.
  - by apply String_as_OT.cmp_eq in Hc.
  - apply ltb_Lt in Hc. congruence.
  - by destruct (String.compare b a).
Qed.

#[local] Instance key_lt_antisymm {A} : AntiSymm (=) (@key_lt A).
Proof.
  intros x y Hxy Hyx. unfold key_lt, item_lt in *.
  pose proof (ltb_trans _ _ _ Hxy Hyx) as H. by rewrite ltb_irrefl in H.
Qed.

Lemma insert_sorted_perm {A} (lt : A → A → bool) x l : insert_sorted lt x l ≡ₚ x :: l.
Proof.
  induction l as [|y l IH]; [done|]. simpl. destruct (lt y x); [|done].
  rewrite IH. apply Permutation_swap.
Qed.

Lemma sorted_perm {A} (lt : A → A → bool) l : sorted lt l ≡ₚ l.
Proof.
  induction l as [|x l IH]; [done|]. simpl. by rewrite insert_sorted_perm, IH.
Qed.

Lemma insert_sorted_strongly {A} (x : string * A) l :
  x.1 ∉ l.*1 → StronglySorted key_lt l →
  StronglySorted key_lt (insert_sorted item_lt x l).
Proof.
  intros Hx Hs. induction Hs as [|y l Hs IH Hy]; simpl.
  - by repeat constructor.
  - apply not_elem_of_cons in Hx as [Hxy Hx]. simpl in Hxy.
    destruct (item_lt y x) eqn:Hlt.
    + constructor; [by apply IH|].
      rewrite insert_sorted_perm. by constructor.
    + assert (Hxy' : key_lt x y).
      { unfold key_lt, item_lt in *. by apply ltb_total. }
      constructor; [by constructor|]. constructor; [done|].
      eapply Forall_impl; [done|]. intros z Hz.
      unfold key_lt, item_lt in *. by eapply ltb_trans.
Qed.

Lemma sorted_strongly {A} (l : list (string * A)) :
  NoDup l.*1 → StronglySorted key_lt (sorted item_lt l).
Proof.
  induction l as [|x l IH]; simpl; [constructor|].
  intros [Hx Hnd]%NoDup_cons. apply insert_sorted_strongly; [|by apply IH].
  change (foldr (insert_sorted item_lt) [] l) with (sorted item_lt l).
  by rewrite sorted_perm.
Qed.

Lemma sorted_key_order {A} (l1 l2 : list (string * A)) :
  NoDup l1.*1 → l1 ≡ₚ l2 → sorted item_lt l1 = sorted item_lt l2.
Proof.
  intros Hnd Hp. apply (StronglySorted_unique key_lt).
  - by apply sorted_strongly.
  - apply sorted_strongly. by rewrite <- Hp.
  - by rewrite !sorted_perm.
Qed.

(** Two dicts with the same items, inserted in any order, get one key. *)
Lemma hashable_key_order n (h : list obj) l1 l2 items1 items2 :
  h !! l1 = Some (ODict items1) → h !! l2 = Some (ODict items2) →
  NoDup items1.*1 → items1 ≡ₚ items2 →
  hashable n h (VRef l1) = hashable n h (VRef l2).
Proof.
  intros H1 H2 Hnd Hp. destruct n as [|n]; [done|].
  rewrite !hashable_S, H1, H2. by rewrite (sorted_key_order items1 items2).
Qed.
(** ** Keys of configurations without tuples *)

(** On a configuration made of dicts, lists and scalars, [hashable]
    returns a key that [_connections] accepts. *)
Lemma hashable_json_like n : ∀ (h : list obj) v t,
  reify n h v = Some t →
  json_like t = true →
  ∃ key, hashable n h v = Ok key ∧ is_hashable key = true.
Proof.
  induction n as [|n IH]; intros h v t H Hj; [done|].
  rewrite reify_S in H. rewrite hashable_S.
  destruct v as [| | | |vs|l];
    try (inversion H; subst; by eexists).
  - destruct (mapM (reify n h) vs) as [ts|]; [|done]. inversion H; subst. done.
  - destruct (h !! l) as [[items|elems]|] eqn:Hl; [| |done].
    + destruct (mapM _ items) as [titems|] eqn:Hits; [|done].
      inversion H; subst t. apply mapM_Some in Hits. simpl in Hj.
      rewrite forallb_forall in Hj.
      assert (HF : Forall2 (fun (kv : string * value) (kt : string * tree) =>
                              kv.1 = kt.1
                              ∧ (reify n h kv.2 = Some kt.2 ∧ json_like kt.2 = true))
                           (sorted item_lt items) (sorted item_lt titems)).
      { apply sorted_Forall2; [by intros ? ? [? ?]|].
        apply Forall2_same_length_lookup. split; [by eapply Forall2_length|].
        intros i [k x] [k' y] Hi Hi'.
        pose proof (Forall2_lookup_lr _ _ _ _ _ _ Hits Hi Hi') as Hxy. simpl in Hxy.
        destruct (reify n h x) eqn:Hrx; [|done]. inversion Hxy; subst. simpl.
        split; [done|]. split; [done|].
        apply (Hj (k', y)). apply list_elem_of_In. by eapply list_elem_of_lookup_2. }
      revert HF. generalize (sorted item_lt items) (sorted item_lt titems).
      intros sitems stitems HF.
      assert (∃ keys,
        Forall2 (fun (kv : string * value) key =>
                   (hv ← hashable n h kv.2; mret (VTuple [VStr kv.1; hv])) = Ok key)
                sitems keys
        ∧ forallb is_hashable keys = true) as (keys & Hk1 & Hk2).
      { induction HF as [|[k x] [k' tx] sitems stitems (Hkk & Hx & Hjx) HF' IH'].
        - exists []. split; [constructor|done].
        - simpl in Hkk, Hx, Hjx. destruct IH' as (keys & IH1 & IH2).
          destruct (IH _ _ _ Hx Hjx) as (key & Hkey & Hhk).
          exists (VTuple [VStr k; key] :: keys). split.
          + constructor; [|done]. simpl. by rewrite Hkey.
          + simpl. by rewrite Hhk, IH2. }
      exists (VTuple keys). by rewrite (mapM_Ok _ _ _ Hk1).
    + destruct (mapM (reify n h) elems) as [ts|] eqn:Hvs; [|done].
      inversion H; subst t. apply mapM_Some in Hvs. simpl in Hj.
      rewrite forallb_forall in Hj.
      assert (∃ keys, Forall2 (fun x key => hashable n h x = Ok key) elems keys
                      ∧ forallb is_hashable keys = true) as (keys & Hk1 & Hk2).
      { clear Hl H. induction Hvs as [|x tx elems ts Hx Hvs' IH'].
        - exists []. split; [constructor|done].
        - destruct IH' as (keys & IH1 & IH2).
          { intros y Hy. apply Hj. by right. }
          destruct (IH _ _ _ Hx) as (key & Hkey & Hhk).
          { apply Hj. by left. }
          exists (key :: keys). split; [by constructor|]. simpl. by rewrite Hhk, IH2. }
      exists (VTuple keys). by rewrite (mapM_Ok _ _ _ Hk1).
Qed.
(** ** [deepcopy] returns, and where it puts the copy *)

Lemma copy_all_total copy n :
  (∀ (h : list obj) v t, reify n h v = Some t → ∃ v' h', copy v h = Ok (v', h')) →
  (∀ v (h : list obj) v' h', copy v h = Ok (v', h') → h `prefix_of` h') →
  ∀ vs (h : list obj) ts,
    mapM (reify n h) vs = Some ts → ∃ vs' h', copy_all copy vs h = Ok (vs', h').
Proof.
  intros Ht Hp vs. induction vs as [|x vs IH]; intros h ts H.
  - by eexists _, _.
  - apply mapM_Some in H. inversion H as [|? tx ? ts' Hx Hvs]; subst.
    destruct (Ht _ _ _ Hx) as (x' & h1 & E1). simpl. rewrite E1.
    destruct (IH h1 ts') as (vs' & h2 & E2).
    { apply mapM_Some. eapply Forall2_impl; [done|]. intros y ty.
      apply reify_prefix. by eapply Hp. }
    rewrite E2. by eexists _, _.
Qed.

(** A value that stands for a tree within the depth at hand is copied
    without error. *)
Lemma deepcopy_total n : ∀ (h : list obj) v t,
  reify n h v = Some t → ∃ v' h', deepcopy n v h = Ok (v', h').
Proof.
  induction n as [|n IH]; intros h v t H; [done|].
  pose proof (copy_all_total (deepcopy n) n IH (deepcopy_prefix n)) as Hall.
  rewrite reify_S in H. simpl.
  destruct v as [| | | |vs|l]; try by eexists _, _.
  - destruct (mapM (reify n h) vs) as [ts|] eqn:Hvs; [|done].
    destruct (Hall _ _ _ Hvs) as (vs' & h' & ->). by eexists _, _.
  - destruct (h !! l) as [[items|elems]|] eqn:Hl; [| |done].
    + destruct (mapM _ items) as [titems|] eqn:Hits; [|done].
      assert (mapM (reify n h) items.*2 = Some titems.*2) as Hvs.
      { apply mapM_Some in Hits. apply mapM_Some.
        apply Forall2_fmap. eapply Forall2_impl; [done|].
        intros [k x] [k' y]; simpl. destruct (reify n h x); [|done]. by intros [= _ ->]. }
      destruct (Hall _ _ _ Hvs) as (vs' & h' & ->). by eexists _, _.
    + destruct (mapM (reify n h) elems) as [ts|] eqn:Hvs; [|done].
      destruct (Hall _ _ _ Hvs) as (vs' & h' & ->). by eexists _, _.
Qed.

(** A copy that is an object is a new object. *)
Lemma deepcopy_ref_fresh n v (h : list obj) l' h' :
  deepcopy n v h = Ok (VRef l', h') → List.length h ≤ l' ∧ l' < List.length h'.
Proof.
  intros H. destruct n as [|n]; [done|]. simpl in H.
  destruct v as [| | | |vs|l]; try done.
  { by destruct (copy_all (deepcopy n) vs h) as [[? ?]|]. }
  destruct (h !! l) as [[items|elems]|] eqn:Hl; [| |done].
  - destruct (copy_all (deepcopy n) items.*2 h) as [[vs' h1]|] eqn:E1; [|done].
    inversion H; subst. rewrite length_app. simpl.
    pose proof (prefix_length _ _ (copy_all_prefix _ (deepcopy_prefix n) _ _ _ _ E1)). lia.
  - destruct (copy_all (deepcopy n) elems h) as [[vs' h1]|] eqn:E1; [|done].
    inversion H; subst. rewrite length_app. simpl.
    pose proof (prefix_length _ _ (copy_all_prefix _ (deepcopy_prefix n) _ _ _ _ E1)). lia.
Qed.

(** ** The [connection] property on a miss, step by step *)

Lemma connection_miss_run (E : Env) (self : FileDataset) (w : World) key l' h' items' :
  cache_key E self w = Ok key →
  is_hashable key = true →
  reg_get key (_connections w) = None →
  deepcopy (recursion_limit E) (_connection_config self) (store w) = Ok (VRef l', h') →
  h' !! l' = Some (ODict items') →
  connection E self w =
    match dict_get "backend" items' with
    | None => (Raise (KeyError "backend"), snd (set_store h' w))
    | Some (VStr name) =>
        let kwargs := dict_del "backend" items' in
        let w1 := snd (emit (EIbisAttr name)
                         (snd (set_store (<[l' := ODict kwargs]> h') w))) in
        if ibis_has E name then
          match connect_fails E name kwargs w1 with
          | Some e => (Raise e, snd (emit (EConnect name kwargs) w1))
          | None => (Ok (next_handle w), miss_world w h' l' items' name key)
          end
        else (Raise (AttributeError name), w1)
    | Some _ =>
        (Raise TypeError,
         snd (set_store (<[l' := ODict (dict_del "backend" items')]> h') w))
    end.
Proof.
  unfold cache_key, connection. intros Hk Hh Hg Hd Hl'.
  rewrite bind_run. unfold get_world at 1. cbv beta iota.
  rewrite bind_run. unfold lift at 1. rewrite Hk. cbv beta iota.
  rewrite bind_run. unfold contains at 1. rewrite Hh, Hg.
  rewrite bool_decide_false by (by intros [? ?]). cbv beta iota.
  rewrite bind_run, bind_run. unfold deepcopy_m at 1. rewrite Hd. cbv beta iota.
  rewrite bind_run. unfold pop at 1. simpl store. rewrite Hl'.
  destruct (dict_get "backend" items') as [name|] eqn:Hb; [|done].
  cbv beta iota. rewrite bind_run. unfold ibis_getattr at 1.
  destruct name as [| | |name| |]; try done.
  rewrite bind_run. unfold emit at 1. cbv beta iota.
  destruct (ibis_has E name) eqn:Hi; [|done].
  unfold mret at 1, M_ret at 1. cbv beta iota.
  rewrite bind_run. unfold backend_connect at 1.
  rewrite bind_run. unfold unpack at 1. simpl store.
  rewrite list_lookup_insert_eq by (by eapply lookup_lt_Some). cbv beta iota.
  rewrite bind_run. unfold get_world at 1. cbv beta iota.
  rewrite bind_run. unfold emit at 1. cbv beta iota.
  cbn [snd set_store emit store _connections next_handle fs trace].
  match goal with |- context [connect_fails E ?a ?b ?c] =>
    destruct (connect_fails E a b c) as [e|] eqn:Hc end; [done|].
  unfold new_handle. cbv beta iota.
  unfold setitem, getitem. rewrite Hh. unfold set_connections. cbv beta iota.
  cbn [_connections next_handle store fs trace].
  rewrite (reg_set_new _ _ _ Hg), reg_get_app, Hg. simpl reg_get.
  rewrite py_eqb_refl. unfold miss_world. by rewrite <- app_assoc.
Qed.
(** ** What [connection] leaves behind *)

Lemma copy_of_str m (h : list obj) s x' : copy_of m h (VStr s) x' → x' = VStr s.
Proof.
  intros [(t & H1 & H2) _]. destruct m as [|m]; [done|].
  rewrite reify_S in H1, H2. inversion H1; subst.
  destruct x' as [| | | |vs|l]; try done.
  - by inversion H2.
  - by destruct (mapM (reify m h) vs).
  - destruct (h !! l) as [[items|elems]|]; [| |done].
    + by destruct (mapM _ items).
    + by destruct (mapM (reify m h) elems).
Qed.

Lemma dict_get_copies_fwd m (h : list obj) k (items items' : list (string * value)) :
  Forall2 (fun kv kv' : string * value => kv.1 = kv'.1 ∧ copy_of m h kv.2 kv'.2)
          items items' →
  (∀ s, dict_get k items = Some (VStr s) → dict_get k items' = Some (VStr s))
  ∧ (dict_get k items = None → dict_get k items' = None).
Proof.
  induction 1 as [|[k1 x] [k2 x'] items items' [Hk Hc] _ [IH1 IH2]]; [done|].
  simpl in *. subst k2. case_bool_decide; [|done]. split; [|done].
  intros s [= ->]. by rewrite (copy_of_str _ _ _ _ Hc).
Qed.

(** The copy [connection] works on, for a configuration that is a dict
    standing for a tree within the depth at hand. *)
Lemma config_copy (E : Env) (self : FileDataset) (w : World) l items t :
  _connection_config self = VRef l →
  store w !! l = Some (ODict items) →
  reify (recursion_limit E) (store w) (VRef l) = Some t →
  ∃ l' h' items',
    deepcopy (recursion_limit E) (_connection_config self) (store w) = Ok (VRef l', h')
    ∧ h' !! l' = Some (ODict items')
    ∧ store w `prefix_of` h'
    ∧ List.length (store w) ≤ l'
    ∧ (∀ k s, dict_get k items = Some (VStr s) → dict_get k items' = Some (VStr s))
    ∧ (∀ k, dict_get k items = None → dict_get k items' = None).
Proof.
  intros Hcfg Hl Hr. rewrite Hcfg.
  destruct (deepcopy_total _ _ _ _ Hr) as (v' & h' & Hd).
  destruct (deepcopy_dict _ _ _ _ _ _ Hl Hd) as (l' & vs' & -> & Hfresh & Hl' & _ & _).
  destruct (deepcopy_dict_inv _ _ _ _ _ _ Hd Hl')
    as (l0 & items0 & vs0 & h1 & m & _ & [= <-] & Hl0 & _ & HF & _ & _ & Hi).
  assert (items0 = items) as -> by congruence.
  pose proof (copies_entries _ _ _ _ HF) as HF'. rewrite <- Hi in HF'.
  exists l', h', (zip items.*1 vs'). split; [done|]. split; [done|].
  split; [by eapply deepcopy_prefix|]. split; [done|].
  split; intros k.
  - apply (proj1 (dict_get_copies_fwd _ _ k _ _ HF')).
  - apply (proj2 (dict_get_copies_fwd _ _ k _ _ HF')).
Qed.

(** Whatever [connection] does, the objects that existed stay as they
    were: it writes to its own copy only. *)
Lemma connection_store_frame (E : Env) (self : FileDataset) (w : World) r w' :
  connection E self w = (r, w') →
  ∀ l o, store w !! l = Some o → store w' !! l = Some o.
Proof.
  unfold connection. intros H l o Hlo.
  rewrite bind_run in H. unfold get_world at 1 in H. cbv beta iota in H.
  rewrite bind_run in H. unfold lift at 1 in H.
  destruct (hashable (recursion_limit E) (store w) (_connection_config self))
    as [key|e] eqn:Hk; cbv beta iota in H; [|by inversion H; subst].
  rewrite bind_run in H. unfold contains at 1 in H.
  destruct (is_hashable key) eqn:Hh; cbv beta iota in H; [|by inversion H; subst].
  rewrite bind_run in H.
  destruct (reg_get key (_connections w)) as [c|] eqn:Hg.
  - rewrite bool_decide_true in H by (by eexists).
    unfold mret at 1, M_ret at 1 in H. cbv beta iota in H.
    unfold getitem in H. rewrite Hh, Hg in H. by inversion H; subst.
  - rewrite bool_decide_false in H by (by intros [? ?]).
    rewrite bind_run in H. unfold deepcopy_m at 1 in H.
    destruct (deepcopy (recursion_limit E) (_connection_config self) (store w))
      as [[config h']|e] eqn:Hd; cbv beta iota in H; [|by inversion H; subst].
    pose proof (deepcopy_prefix _ _ _ _ _ Hd) as Hp.
    pose proof (prefix_lookup_Some _ _ _ _ Hlo Hp) as Hlo'.
    rewrite bind_run in H. unfold pop at 1 in H.
    destruct config as [| | | | |l']; try (by inversion H; subst).
    destruct (deepcopy_ref_fresh _ _ _ _ _ Hd) as [Hfresh _].
    assert (l' ≠ l) by (apply lookup_lt_Some in Hlo; lia).
    simpl in H.
    destruct (h' !! l') as [[items|]|] eqn:Hl'; try (by inversion H; subst).
    destruct (dict_get "backend" items) as [name|] eqn:Hb; [|by inversion H; subst].
    assert (Hins : (<[l' := ODict (dict_del "backend" items)]> h') !! l = Some o)
      by (by rewrite list_lookup_insert_ne).
    rewrite bind_run in H. unfold ibis_getattr at 1 in H.
    destruct name as [| | |name| |]; try (by inversion H; subst).
    rewrite bind_run in H. unfold emit at 1 in H. cbv beta iota in H.
    destruct (ibis_has E name) eqn:Hi; [|by inversion H; subst].
    unfold mret at 1, M_ret at 1 in H. cbv beta iota in H.
    rewrite bind_run in H. unfold backend_connect at 1 in H.
    rewrite bind_run in H. unfold unpack at 1 in H. simpl in H.
    rewrite list_lookup_insert_eq in H by (by eapply lookup_lt_Some).
    rewrite bind_run in H. unfold get_world at 1 in H. cbv beta iota in H.
    rewrite bind_run in H. unfold emit at 1 in H. cbv beta iota in H.
    match type of H with context [connect_fails E ?a ?b ?c] =>
      destruct (connect_fails E a b c) as [e|] eqn:Hc end.
    + by inversion H; subst.
    + unfold setitem, getitem in H. simpl in H. rewrite Hh in H.
      rewrite (reg_set_new _ _ _ Hg) in H. simpl in H.
      rewrite reg_get_app, Hg in H. simpl in H. rewrite py_eqb_refl in H.
      by inversion H; subst.
Qed.

Lemma prefix_insert_fresh {A} (h h' : list A) l' o :
  h `prefix_of` h' → List.length h ≤ l' → h `prefix_of` <[l' := o]> h'.
Proof.
  intros [k ->] Hl. rewrite insert_app_r_alt by done. by apply prefix_app_r.
Qed.

(** X2. [connection] returns a handle, stored under the key, for every
    configuration that is a dict of dicts, lists and scalars within the
    recursion limit, names a backend ibis has, and is accepted by that
    backend's [connect]. *)
Theorem connection_returns (E : Env) (self : FileDataset) (w : World)
    l items t name :
  _connection_config self = VRef l →
  store w !! l = Some (ODict items) →
  reify (recursion_limit E) (store w) (VRef l) = Some t →
  json_like t = true →
  dict_get "backend" items = Some (VStr name) →
  ibis_has E name = true →
  (∀ kwargs w0, connect_fails E name kwargs w0 = None) →
  ∃ c w' key,
    connection E self w = (Ok c, w')
    ∧ cache_key E self w = Ok key
    ∧ reg_get key (_connections w') = Some c.
Proof.
  intros Hcfg Hl Hr Hj Hb Hi Hc.
  destruct (hashable_json_like _ _ _ _ Hr Hj) as (key & Hk & Hh).
  assert (Hk' : cache_key E self w = Ok key) by (unfold cache_key; by rewrite Hcfg).
  destruct (reg_get key (_connections w)) as [c|] eqn:Hg.
  - exists c, w, key. split; [by apply (connection_hit E self w key)|done].
  - destruct (config_copy E self w l items t Hcfg Hl Hr)
      as (l' & h' & items' & Hd & Hl' & _ & _ & Hfwd & _).
    rewrite (connection_miss_run E self w key l' h' items' Hk' Hh Hg Hd Hl').
    rewrite (Hfwd _ _ Hb). cbv zeta. rewrite Hi, Hc.
    eexists _, _, key. split; [done|]. split; [done|]. simpl.
    rewrite reg_get_app, Hg. simpl. by rewrite py_eqb_refl.
Qed.

Lemma connection_returns_witness :
  ∃ c w' key,
    connection sample_env (twin_dataset 7) (with_store twin_store) = (Ok c, w')
    ∧ cache_key sample_env (twin_dataset 7) (with_store twin_store) = Ok key
    ∧ reg_get key (_connections w') = Some c.
Proof.
  apply (connection_returns sample_env (twin_dataset 7) (with_store twin_store) 7
           [("backend", VStr "duckdb"); ("opts", VRef 6)]
           (TDict [("backend", TStr "duckdb");
                   ("opts", TList [TList [TStr "a"; TInt 1]])])
           "duckdb"); try reflexivity.
Defined.

(** X3. On a configuration without backend entry that is not in the
    registry, [connection] raises [KeyError] for "backend" before any call
    leaves the module; nothing is stored and the configuration is as it
    was. *)
Theorem connection_missing_backend (E : Env) (self : FileDataset) (w : World)
    l items t :
  _connection_config self = VRef l →
  store w !! l = Some (ODict items) →
  reify (recursion_limit E) (store w) (VRef l) = Some t →
  json_like t = true →
  dict_get "backend" items = None →
  (∀ key, cache_key E self w = Ok key → reg_get key (_connections w) = None) →
  ∃ w',
    connection E self w = (Raise (KeyError "backend"), w')
    ∧ trace w' = trace w
    ∧ _connections w' = _connections w
    ∧ store w' !! l = Some (ODict items).
Proof.
  intros Hcfg Hl Hr Hj Hb Hmiss.
  destruct (hashable_json_like _ _ _ _ Hr Hj) as (key & Hk & Hh).
  assert (Hk' : cache_key E self w = Ok key) by (unfold cache_key; by rewrite Hcfg).
  destruct (config_copy E self w l items t Hcfg Hl Hr)
    as (l' & h' & items' & Hd & Hl' & Hp & _ & _ & Hnone).
  rewrite (connection_miss_run E self w key l' h' items' Hk' Hh (Hmiss _ Hk') Hd Hl').
  rewrite (Hnone _ Hb). eexists. split; [done|]. simpl.
  repeat (split; [done|]). by eapply prefix_lookup_Some.
Qed.

Lemma connection_missing_backend_witness :
  ∃ w',
    connection sample_env reordered_dataset no_backend_world
      = (Raise (KeyError "backend"), w')
    ∧ trace w' = trace no_backend_world
    ∧ _connections w' = _connections no_backend_world
    ∧ store w' !! 5 = Some (ODict [("database", VStr "company.db")]).
Proof.
  apply (connection_missing_backend sample_env reordered_dataset no_backend_world 5
           [("database", VStr "company.db")]
           (TDict [("database", TStr "company.db")])); reflexivity.
Defined.

(** X4. When ibis has no attribute of the configured backend name,
    [connection] raises [AttributeError] for that name after asking ibis
    and nobody else; nothing is stored. *)
Theorem connection_unknown_backend (E : Env) (self : FileDataset) (w : World)
    l items t name :
  _connection_config self = VRef l →
  store w !! l = Some (ODict items) →
  reify (recursion_limit E) (store w) (VRef l) = Some t →
  json_like t = true →
  dict_get "backend" items = Some (VStr name) →
  ibis_has E name = false →
  (∀ key, cache_key E self w = Ok key → reg_get key (_connections w) = None) →
  ∃ w',
    connection E self w = (Raise (AttributeError name), w')
    ∧ trace w' = trace w ++ [EIbisAttr name]
    ∧ _connections w' = _connections w
    ∧ store w' !! l = Some (ODict items).
Proof.
  intros Hcfg Hl Hr Hj Hb Hi Hmiss.
  destruct (hashable_json_like _ _ _ _ Hr Hj) as (key & Hk & Hh).
  assert (Hk' : cache_key E self w = Ok key) by (unfold cache_key; by rewrite Hcfg).
  destruct (config_copy E self w l items t Hcfg Hl Hr)
    as (l' & h' & items' & Hd & Hl' & Hp & Hfresh & Hfwd & _).
  rewrite (connection_miss_run E self w key l' h' items' Hk' Hh (Hmiss _ Hk') Hd Hl').
  rewrite (Hfwd _ _ Hb). cbv zeta. rewrite Hi. eexists. split; [done|]. simpl.
  repeat (split; [done|]).
  eapply prefix_lookup_Some; [done|]. by apply prefix_insert_fresh.
Qed.

Lemma connection_unknown_backend_witness :
  ∃ w',
    connection offline_env sample_dataset sample_world
      = (Raise (AttributeError "duckdb"), w')
    ∧ trace w' = trace sample_world ++ [EIbisAttr "duckdb"]
    ∧ _connections w' = _connections sample_world
    ∧ store w' !! 0
      = Some (ODict [("backend", VStr "duckdb"); ("database", VStr ":memory:")]).
Proof.
  apply (connection_unknown_backend offline_env sample_dataset sample_world 0
           [("backend", VStr "duckdb"); ("database", VStr ":memory:")]
           (TDict [("backend", TStr "duckdb"); ("database", TStr ":memory:")])
           "duckdb"); reflexivity.
Defined.

(** X5. A connection attempt that the backend refuses is not remembered:
    [connection] raises what [connect] raised, stores nothing, and the
    next call on the same adapter asks ibis and the backend again. *)
Theorem connection_refused_is_retried (E : Env) (self : FileDataset) (w : World)
    l items t name e :
  _connection_config self = VRef l →
  store w !! l = Some (ODict items) →
  reify (recursion_limit E) (store w) (VRef l) = Some t →
  json_like t = true →
  dict_get "backend" items = Some (VStr name) →
  ibis_has E name = true →
  (∀ kwargs w0, connect_fails E name kwargs w0 = Some e) →
  (∀ key, cache_key E self w = Ok key → reg_get key (_connections w) = None) →
  ∃ w1 w2 kwargs1 kwargs2,
    connection E self w = (Raise e, w1)
    ∧ connection E self w1 = (Raise e, w2)
    ∧ _connections w2 = _connections w
    ∧ trace w2 = trace w ++ [EIbisAttr name; EConnect name kwargs1;
                             EIbisAttr name; EConnect name kwargs2].
Proof.
  intros Hcfg Hl Hr Hj Hb Hi Hc Hmiss.
  destruct (hashable_json_like _ _ _ _ Hr Hj) as (key & Hk & Hh).
  assert (Hk' : cache_key E self w = Ok key) by (unfold cache_key; by rewrite Hcfg).
  destruct (config_copy E self w l items t Hcfg Hl Hr)
    as (l' & h' & items' & Hd & Hl' & Hp & Hfresh & Hfwd & _).
  pose proof (connection_miss_run E self w key l' h' items' Hk' Hh (Hmiss _ Hk') Hd Hl')
    as H1.
  rewrite (Hfwd _ _ Hb) in H1. cbv zeta in H1. rewrite Hi, Hc in H1.
  set (w1 := snd (emit (EConnect name (dict_del "backend" items'))
                    (snd (emit (EIbisAttr name)
                            (snd (set_store
                                    (<[l' := ODict (dict_del "backend" items')]> h') w))))))
    in H1.
  assert (Hp1 : store w `prefix_of` store w1).
  { unfold w1; simpl. by apply prefix_insert_fresh. }
  assert (Hl1 : store w1 !! l = Some (ODict items)) by (by eapply prefix_lookup_Some).
  assert (Hr1 : reify (recursion_limit E) (store w1) (VRef l) = Some t)
    by (by eapply reify_prefix).
  destruct (hashable_json_like _ _ _ _ Hr1 Hj) as (key1 & Hk1 & Hh1).
  assert (Hk1' : cache_key E self w1 = Ok key1) by (unfold cache_key; by rewrite Hcfg).
  assert (Hg1 : reg_get key1 (_connections w1) = None).
  { destruct (reg_get key1 (_connections w1)) as [c|] eqn:Hg; [|done].
    destruct (hashable_normalizes _ _ _ _ Hr) as (k0 & Hk0 & Hd0).
    destruct (hashable_normalizes _ _ _ _ Hr1) as (k1 & Hk10 & Hd1).
    assert (k0 = key) as -> by congruence. assert (k1 = key1) as -> by congruence.
    destruct Hd0 as [n0 Hd0], Hd1 as [n1 Hd1].
    rewrite (reify_hashable_store n1 (store w1) (store w) key1 Hh1) in Hd1.
    assert (key = key1) as <- by (by eapply reify_hashable_inj).
    unfold w1 in Hg; simpl in Hg. by rewrite (Hmiss _ Hk') in Hg. }
  destruct (config_copy E self w1 l items t Hcfg Hl1 Hr1)
    as (l2 & h2 & items2 & Hd2 & Hl2 & _ & _ & Hfwd2 & _).
  pose proof (connection_miss_run E self w1 key1 l2 h2 items2 Hk1' Hh1 Hg1 Hd2 Hl2) as H2.
  rewrite (Hfwd2 _ _ Hb) in H2. cbv zeta in H2. rewrite Hi, Hc in H2.
  eexists _, _, _, _. split; [exact H1|]. split; [exact H2|].
  unfold w1; simpl. split; [done|]. by rewrite <- !app_assoc.
Qed.

Lemma connection_refused_is_retried_witness :
  ∃ w1 w2 kwargs1 kwargs2,
    connection refusing_env sample_dataset sample_world = (Raise BackendError, w1)
    ∧ connection refusing_env sample_dataset w1 = (Raise BackendError, w2)
    ∧ _connections w2 = _connections sample_world
    ∧ trace w2 = trace sample_world
        ++ [EIbisAttr "duckdb"; EConnect "duckdb" kwargs1;
            EIbisAttr "duckdb"; EConnect "duckdb" kwargs2].
Proof.
  apply (connection_refused_is_retried refusing_env sample_dataset sample_world 0
           [("backend", VStr "duckdb"); ("database", VStr ":memory:")]
           (TDict [("backend", TStr "duckdb"); ("database", TStr ":memory:")])
           "duckdb" BackendError); reflexivity.
Defined.

(** ** The same adapter, asked again *)

Lemma mapM_Ok_inv {A B} (f : A → result B) l k :
  mapM f l = Ok k → Forall2 (fun x y => f x = Ok y) l k.
Proof.
  revert k. induction l as [|x l IH]; intros k H; simpl in H.
  - inversion H. constructor.
  - destruct (f x) as [y|] eqn:Hx; [|done]. simpl in H.
    destruct (mapM f l) as [k'|] eqn:Hl; [|done]. simpl in H.
    inversion H; subst. constructor; [done|by apply IH].
Qed.

(** A key computed in a store is the key computed in any store that has
    the same objects and more. *)
Lemma hashable_prefix n : ∀ (h h' : list obj) v key,
  h `prefix_of` h' → hashable n h v = Ok key → hashable n h' v = Ok key.
Proof.
  induction n as [|n IH]; intros h h' v key Hp H; [done|].
  rewrite hashable_S in H. rewrite hashable_S.
  destruct v as [| | | |vs|l]; try done.
  destruct (h !! l) as [o|] eqn:Hl; [|done].
  rewrite (prefix_lookup_Some _ _ _ _ Hl Hp). destruct o as [items|elems].
  - destruct (mapM _ (sorted item_lt items)) as [keys|] eqn:Hm; [|done].
    apply mapM_Ok_inv in Hm.
    rewrite (mapM_Ok _ _ keys); [done|].
    eapply Forall2_impl; [done|]. intros [k x] y; simpl.
    destruct (hashable n h x) as [hv|] eqn:Hx; [|done].
    by rewrite (IH _ _ _ _ Hp Hx).
  - destruct (mapM (hashable n h) elems) as [keys|] eqn:Hm; [|done].
    apply mapM_Ok_inv in Hm.
    rewrite (mapM_Ok _ _ keys); [done|].
    eapply Forall2_impl; [done|]. intros x y. by apply IH.
Qed.

(** After a call that returned, the store holds what it held, and more. *)
Lemma connection_store_prefix (E : Env) (self : FileDataset) (w w' : World) c :
  connection E self w = (Ok c, w') → store w `prefix_of` store w'.
Proof.
  intros H.
  destruct (connection_inv E self w _ _ H)
    as [(? & ? & _ & _ & _ & _ & ->)
       |[(key & l' & h' & items & name & _ & _ & _ & Hd & _ & _ & _ & _ & ->)
        |(e & ? & _)]]; [done| |done].
  simpl. apply prefix_insert_fresh; [by eapply deepcopy_prefix|].
  by destruct (deepcopy_ref_fresh _ _ _ _ _ Hd).
Qed.

(** X6. Asking the same adapter again right after a call that returned a
    handle returns that handle and changes nothing: no copy, no call to
    ibis. *)
Theorem connection_idempotent (E : Env) (self : FileDataset) (w w1 : World) c :
  connection E self w = (Ok c, w1) →
  connection E self w1 = (Ok c, w1).
Proof.
  intros H.
  destruct (cache_key E self w) as [key|e] eqn:Hk.
  - destruct (connection_stored E self w c w1 key H Hk) as [Hh Hg].
    apply (connection_hit E self w1 key); [|done..].
    unfold cache_key in *. eapply hashable_prefix; [|done].
    by eapply connection_store_prefix.
  - destruct (connection_inv E self w _ _ H)
      as [(? & ? & ? & _)|[(? & ? & ? & ? & ? & ? & _)|(? & ? & _)]]; congruence.
Qed.

Lemma connection_idempotent_witness :
  let w1 := snd (connection sample_env sample_dataset sample_world) in
  connection sample_env sample_dataset w1 = (Ok 0, w1).
Proof.
  apply (connection_idempotent sample_env sample_dataset sample_world).
  vm_compute. reflexivity.
Defined.

(** X7. Two adapters whose configurations are dicts with the same items in
    a different insertion order share one connection: after the first got
    its handle, the second gets the same one from the registry. *)
Theorem permuted_configs_share_connection (E : Env) (a1 a2 : FileDataset)
    (w w1 : World) c l1 l2 items1 items2 :
  _connection_config a1 = VRef l1 →
  _connection_config a2 = VRef l2 →
  store w !! l1 = Some (ODict items1) →
  store w !! l2 = Some (ODict items2) →
  NoDup items1.*1 →
  items1 ≡ₚ items2 →
  connection E a1 w = (Ok c, w1) →
  connection E a2 w1 = (Ok c, w1).
Proof.
  intros Hc1 Hc2 Hl1 Hl2 Hnd Hperm H.
  assert (Hkk : cache_key E a2 w = cache_key E a1 w).
  { unfold cache_key. rewrite Hc1, Hc2. symmetry. by eapply hashable_key_order. }
  destruct (cache_key E a1 w) as [key|e] eqn:Hk.
  - destruct (connection_stored E a1 w c w1 key H Hk) as [Hh Hg].
    apply (connection_hit E a2 w1 key); [|done..].
    unfold cache_key in *. eapply hashable_prefix; [|done].
    by eapply connection_store_prefix.
  - destruct (connection_inv E a1 w _ _ H)
      as [(? & ? & ? & _)|[(? & ? & ? & ? & ? & ? & _)|(? & ? & _)]]; congruence.
Qed.

Lemma permuted_configs_share_connection_witness :
  let w1 := snd (connection sample_env sample_dataset reordered_world) in
  connection sample_env reordered_dataset w1 = (Ok 0, w1).
Proof.
  apply (permuted_configs_share_connection sample_env sample_dataset reordered_dataset
           reordered_world _ 0 0 5
           [("backend", VStr "duckdb"); ("database", VStr ":memory:")]
           [("database", VStr ":memory:"); ("backend", VStr "duckdb")]);
    try reflexivity.
  - apply NoDup_cons. split; [|apply NoDup_singleton].
    intros Hin%list_elem_of_singleton. discriminate.
  - apply Permutation_swap.
Defined.

(** ** Saving under a regular file *)




(** ** The existence check stays out of the backend *)

(** X9. [_exists] never obtains a connection and changes neither objects,
    registry nor file system; it asks the versioning layer for the load
    path and, given one, the file system about it.  An error of the
    versioning layer other than [DatasetError] is raised to the caller. *)
Theorem exists_never_connects (E : Env) (self : FileDataset) (w : World) :
  store (snd (_exists E self w)) = store w
  ∧ _connections (snd (_exists E self w)) = _connections w
  ∧ next_handle (snd (_exists E self w)) = next_handle w
  ∧ fs (snd (_exists E self w)) = fs w
  ∧ (trace (snd (_exists E self w)) = trace w ++ [EGetLoadPath]
     ∨ ∃ p, get_load_path E self w = Ok p
            ∧ trace (snd (_exists E self w)) = trace w ++ [EGetLoadPath; EExists p])
  ∧ (∀ e, get_load_path E self w = Raise e → e ≠ DatasetError →
          fst (_exists E self w) = Raise e).
Proof.
  unfold _exists, _get_load_path, path_exists. run_step.
  destruct (get_load_path E self w) as [p|e] eqn:Hp; simpl.
  - repeat (split; [done|]). split.
    + right. exists p. split; [done|]. by rewrite <- app_assoc.
    + done.
  - destruct e; simpl; repeat (split; [done|]); (split; [by left|]);
      intros e' [= <-] Hne; done.
Qed.

Lemma exists_never_connects_witness :
  fst (_exists broken_env sample_dataset sample_world) = Raise OSError.
Proof.
  apply (proj2 (proj2 (proj2 (proj2 (proj2
           (exists_never_connects broken_env sample_dataset sample_world)))))).
  - reflexivity.
  - discriminate.
Defined.
(** ** From construction to the reader and the writer *)

Lemma dict_set_new {A} k (v : A) (items : list (string * A)) :
  k ∉ items.*1 → dict_set k v items = items ++ [(k, v)].
Proof.
  induction items as [|[k' v'] items IH]; [done|]. simpl.
  intros [Hk Hin]%not_elem_of_cons. rewrite bool_decide_false by done.
  by rewrite IH.
Qed.

Lemma dict_update_app {A} (items : list (string * A)) : ∀ acc,
  NoDup (acc.*1 ++ items.*1) → dict_update acc items = acc ++ items.
Proof.
  unfold dict_update. induction items as [|[k v] items IH]; intros acc Hnd; simpl.
  - by rewrite app_nil_r.
  - simpl in Hnd. rewrite dict_set_new.
    + rewrite IH; [by rewrite <- app_assoc|].
      rewrite fmap_app. simpl. by rewrite <- app_assoc.
    + apply NoDup_app in Hnd as (_ & Hd & _). intros Hin.
      apply (Hd _ Hin). by left.
Qed.

(** A dict without repeated keys merged into the (empty) defaults gives
    that dict, items in order. *)
Lemma dict_update_nil {A} (items : list (string * A)) :
  NoDup items.*1 → dict_update [] items = items.
Proof. intros Hnd. by rewrite dict_update_app. Qed.

Lemma dict_get_set {A} k (x : A) (items : list (string * A)) :
  dict_get k (dict_set k x items) = Some x.
Proof.
  induction items as [|[k' v'] items IH]; simpl.
  - by rewrite bool_decide_true.
  - case_bool_decide; simpl.
    + by rewrite bool_decide_true.
    + by rewrite bool_decide_false.
Qed.

Lemma load_run (E : Env) (self : FileDataset) (w w1 : World) p c l kwargs :
  get_load_path E self w = Ok p →
  connection E self (snd (emit EGetLoadPath w)) = (Ok c, w1) →
  conn_has E c ("read_" +:+ _file_format self) = true →
  _load_args self = VRef l →
  store w1 !! l = Some (ODict kwargs) →
  load E self w =
    (conn_read E c ("read_" +:+ _file_format self) p (_table_name self) kwargs
       (snd (emit (EConnAttr c ("read_" +:+ _file_format self)) w1)),
     snd (emit (ERead c ("read_" +:+ _file_format self) p (_table_name self) kwargs)
            (snd (emit (EConnAttr c ("read_" +:+ _file_format self)) w1)))).
Proof.
  intros Hp Hc Hr Hl Hs.
  unfold load. rewrite bind_run.
  assert (_get_load_path E self w = (Ok p, snd (emit EGetLoadPath w))) as ->.
  { unfold _get_load_path. run_step. by rewrite Hp. }
  cbv beta iota. rewrite bind_run, Hc. cbv beta iota.
  rewrite bind_run. unfold conn_getattr at 1. rewrite bind_run.
  unfold emit at 1. cbv beta iota. rewrite Hr.
  unfold mret at 1, M_ret at 1. cbv beta iota.
  rewrite bind_run. rewrite Hl. unfold unpack at 1. simpl store. rewrite Hs.
  cbv beta iota. rewrite bind_run. unfold get_world at 1. cbv beta iota.
  rewrite bind_run. unfold emit at 1. cbv beta iota. reflexivity.
Qed.

Lemma save_run (E : Env) (self : FileDataset) (data : nat) (w w2 : World)
    p f1 c l kwargs :
  get_save_path E self w = Ok p →
  mkdir_from [] (parent p) (fs w) = Ok f1 →
  connection E self (snd (set_fs f1 (snd (emit (EMkdir (parent p))
                                            (snd (emit EGetSavePath w))))))
    = (Ok c, w2) →
  conn_has E c ("to_" +:+ _file_format self) = true →
  _save_args self = VRef l →
  store w2 !! l = Some (ODict kwargs) →
  trace (snd (save E self data w)) =
    trace w2 ++ [EConnAttr c ("to_" +:+ _file_format self);
                 EWrite c ("to_" +:+ _file_format self) data p kwargs].
Proof.
  intros Hp Hm Hc Hw Hl Hs.
  unfold save. rewrite bind_run.
  assert (_get_save_path E self w = (Ok p, snd (emit EGetSavePath w))) as ->.
  { unfold _get_save_path. run_step. by rewrite Hp. }
  cbv beta iota. rewrite bind_run.
  assert (mkdir (parent p) (snd (emit EGetSavePath w))
          = (Ok (), snd (set_fs f1 (snd (emit (EMkdir (parent p))
                                           (snd (emit EGetSavePath w))))))) as ->.
  { unfold mkdir. simpl fs. by rewrite Hm. }
  cbv beta iota. rewrite bind_run, Hc. cbv beta iota.
  rewrite bind_run. unfold conn_getattr at 1. rewrite bind_run.
  unfold emit at 1. cbv beta iota. rewrite Hw.
  unfold mret at 1, M_ret at 1. cbv beta iota.
  rewrite bind_run. rewrite Hl. unfold unpack at 1. simpl store. rewrite Hs.
  cbv beta iota. rewrite bind_run. unfold get_world at 1. cbv beta iota.
  rewrite bind_run. unfold emit at 1. cbv beta iota.
  rewrite bind_run. unfold lift at 1.
  match goal with |- context [conn_write E ?a ?b ?c ?d ?e ?f] =>
    destruct (conn_write E a b c d e f) end; simpl; by rewrite <- app_assoc.
Qed.

(** X10. The reader gets the dict given at construction, item by item and
    in order: for an adapter built with [load_args] a dict without repeated
    keys, a [load] that reaches the backend calls [read_<file_format>] with
    the resolved path, the table name and exactly those items. *)
Theorem init_then_load_kwargs (E : Env) p f t conn la sa v m (w : World) ila isa :
  class_intact (store w) →
  0 < recursion_limit E →
  overrides (store w) la = Some ila →
  overrides (store w) sa = Some isa →
  NoDup ila.*1 →
  ∃ ds w1,
    __init__ E p f t conn la sa v m w = (Ok ds, w1)
    ∧ ∀ path c w2,
        get_load_path E ds w1 = Ok path →
        connection E ds (snd (emit EGetLoadPath w1)) = (Ok c, w2) →
        conn_has E c ("read_" +:+ f) = true →
        load E ds w1 =
          (conn_read E c ("read_" +:+ f) path t ila
             (snd (emit (EConnAttr c ("read_" +:+ f)) w2)),
           snd (emit (ERead c ("read_" +:+ f) path t ila)
                  (snd (emit (EConnAttr c ("read_" +:+ f)) w2)))).
Proof.
  intros Hci Hlim Hla Hsa Hnd.
  eexists _, _. split; [by apply (init_spec E p f t conn la sa v m w ila isa)|].
  intros path c w2 Hp Hc Hr.
  refine (load_run E _ _ w2 path c (List.length (store w)) ila Hp Hc Hr eq_refl _).
  eapply connection_store_frame; [exact Hc|]. simpl.
  rewrite lookup_app_r, Nat.sub_diag by done. simpl. by rewrite dict_update_nil.
Qed.

Lemma init_then_load_kwargs_witness :
  ∃ ds w1,
    __init__ sample_env ["data"; "a.csv"] "csv" None VNone (VRef 4) VNone None VNone
      (with_store nested_args_store) = (Ok ds, w1)
    ∧ ∀ path c w2,
        get_load_path sample_env ds w1 = Ok path →
        connection sample_env ds (snd (emit EGetLoadPath w1)) = (Ok c, w2) →
        conn_has sample_env c ("read_" +:+ "csv") = true →
        load sample_env ds w1 =
          (conn_read sample_env c ("read_" +:+ "csv") path None [("columns", VRef 3)]
             (snd (emit (EConnAttr c ("read_" +:+ "csv")) w2)),
           snd (emit (ERead c ("read_" +:+ "csv") path None [("columns", VRef 3)])
                  (snd (emit (EConnAttr c ("read_" +:+ "csv")) w2)))).
Proof.
  apply (init_then_load_kwargs sample_env ["data"; "a.csv"] "csv" None VNone
           (VRef 4) VNone None VNone (with_store nested_args_store)
           [("columns", VRef 3)] []).
  - repeat split.
  - simpl. lia.
  - reflexivity.
  - reflexivity.
  - apply NoDup_singleton.
Defined.

(** X11. The writer gets the dict given at construction in the same way:
    for an adapter built with [save_args] a dict without repeated keys, a
    [save] that reaches the backend ends with one call of
    [to_<file_format>] on the data, the resolved path and exactly those
    items. *)
Theorem init_then_save_kwargs (E : Env) p f t conn la sa v m (w : World) ila isa :
  class_intact (store w) →
  0 < recursion_limit E →
  overrides (store w) la = Some ila →
  overrides (store w) sa = Some isa →
  NoDup isa.*1 →
  ∃ ds w1,
    __init__ E p f t conn la sa v m w = (Ok ds, w1)
    ∧ ∀ data path f1 c w2,
        get_save_path E ds w1 = Ok path →
        mkdir_from [] (parent path) (fs w1) = Ok f1 →
        connection E ds (snd (set_fs f1 (snd (emit (EMkdir (parent path))
                                                (snd (emit EGetSavePath w1))))))
          = (Ok c, w2) →
        conn_has E c ("to_" +:+ f) = true →
        trace (snd (save E ds data w1)) =
          trace w2 ++ [EConnAttr c ("to_" +:+ f); EWrite c ("to_" +:+ f) data path isa].
Proof.
  intros Hci Hlim Hla Hsa Hnd.
  eexists _, _. split; [by apply (init_spec E p f t conn la sa v m w ila isa)|].
  intros data path f1 c w2 Hp Hm Hc Hw.
  refine (save_run E _ data _ w2 path f1 c (S (List.length (store w))) isa
            Hp Hm Hc Hw eq_refl _).
  eapply connection_store_frame; [exact Hc|]. simpl.
  rewrite lookup_app_r by lia.
  replace (S (List.length (store w)) - List.length (store w)) with 1 by lia.
  simpl. by rewrite dict_update_nil.
Qed.

Lemma init_then_save_kwargs_witness :
  ∃ ds w1,
    __init__ sample_env ["data"; "a.csv"] "csv" None VNone VNone (VRef 4) None VNone
      (with_store nested_args_store) = (Ok ds, w1)
    ∧ ∀ data path f1 c w2,
        get_save_path sample_env ds w1 = Ok path →
        mkdir_from [] (parent path) (fs w1) = Ok f1 →
        connection sample_env ds
          (snd (set_fs f1 (snd (emit (EMkdir (parent path))
                                  (snd (emit EGetSavePath w1))))))
          = (Ok c, w2) →
        conn_has sample_env c ("to_" +:+ "csv") = true →
        trace (snd (save sample_env ds data w1)) =
          trace w2 ++ [EConnAttr c ("to_" +:+ "csv");
                       EWrite c ("to_" +:+ "csv") data path [("columns", VRef 3)]].
Proof.
  apply (init_then_save_kwargs sample_env ["data"; "a.csv"] "csv" None VNone
           VNone (VRef 4) None VNone (with_store nested_args_store)
           [] [("columns", VRef 3)]).
  - repeat split.
  - simpl. lia.
  - reflexivity.
  - reflexivity.
  - apply NoDup_singleton.
Defined.

(** ** The configuration is the caller's object *)

(** X12. [__init__] keeps the dict passed as [connection] itself, not a
    copy: a backend entry written to that dict after construction is the
    backend [_describe] reports. *)
Theorem init_shares_connection_config (E : Env) p f t l la sa v m (w : World)
    items ila isa :
  class_intact (store w) →
  0 < recursion_limit E →
  overrides (store w) la = Some ila →
  overrides (store w) sa = Some isa →
  store w !! l = Some (ODict items) →
  items ≠ [] →
  ∃ ds w1,
    __init__ E p f t (VRef l) la sa v m w = (Ok ds, w1)
    ∧ _connection_config ds = VRef l
    ∧ ∀ b w2,
        dict_setitem (VRef l) "backend" b w1 = (Ok (), w2) →
        dict_get "backend" <$> fst (_describe ds w2) = Ok (Some (FValue b)).
Proof.
  intros Hci Hlim Hla Hsa Hl Hne.
  pose proof (init_spec E p f t (VRef l) la sa v m w ila isa Hci Hlim Hla Hsa) as Hinit.
  assert (Ht : truthy (store w) (VRef l) = true).
  { simpl. rewrite Hl. by rewrite bool_decide_false. }
  rewrite Ht in Hinit.
  eexists _, _. split; [exact Hinit|]. split; [done|].
  intros b w2 Hset. unfold dict_setitem in Hset. simpl in Hset.
  rewrite (lookup_app_l_Some _ _ _ _ Hl) in Hset.
  inversion Hset; subst; clear Hset.
  unfold _describe, subscript. run_step.
  rewrite list_lookup_insert_eq
    by (rewrite length_app; apply lookup_lt_Some in Hl; lia).
  by rewrite dict_get_set.
Qed.

Lemma init_shares_connection_config_witness :
  ∃ ds w1,
    __init__ sample_env ["data"; "a.csv"] "csv" None (VRef 0) VNone VNone None VNone
      world0 = (Ok ds, w1)
    ∧ _connection_config ds = VRef 0
    ∧ ∀ b w2,
        dict_setitem (VRef 0) "backend" b w1 = (Ok (), w2) →
        dict_get "backend" <$> fst (_describe ds w2) = Ok (Some (FValue b)).
Proof.
  apply (init_shares_connection_config sample_env ["data"; "a.csv"] "csv" None 0
           VNone VNone None VNone world0
           [("backend", VStr "duckdb"); ("database", VStr ":memory:")] [] []).
  - repeat split.
  - simpl. lia.
  - reflexivity.
  - reflexivity.
  - reflexivity.
  - discriminate.
Defined.

(** X13. [__init__] does not look into the configuration: a non-empty dict
    without backend entry is accepted, and the adapter it builds raises
    [KeyError] for "backend" when described. *)
Theorem init_accepts_config_without_backend (E : Env) p f t l la sa v m (w : World)
    items ila isa :
  class_intact (store w) →
  0 < recursion_limit E →
  overrides (store w) la = Some ila →
  overrides (store w) sa = Some isa →
  store w !! l = Some (ODict items) →
  items ≠ [] →
  dict_get "backend" items = None →
  ∃ ds w1,
    __init__ E p f t (VRef l) la sa v m w = (Ok ds, w1)
    ∧ _describe ds w1 = (Raise (KeyError "backend"), w1).
Proof.
  intros Hci Hlim Hla Hsa Hl Hne Hb.
  pose proof (init_spec E p f t (VRef l) la sa v m w ila isa Hci Hlim Hla Hsa) as Hinit.
  assert (Ht : truthy (store w) (VRef l) = true).
  { simpl. rewrite Hl. by rewrite bool_decide_false. }
  rewrite Ht in Hinit.
  eexists _, _. split; [exact Hinit|].
  unfold _describe, subscript. run_step.
  by rewrite (lookup_app_l_Some _ _ _ _ Hl), Hb.
Qed.

Lemma init_accepts_config_without_backend_witness :
  ∃ ds w1,
    __init__ sample_env ["data"; "a.csv"] "csv" None (VRef 5) VNone VNone None VNone
      no_backend_world = (Ok ds, w1)
    ∧ _describe ds w1 = (Raise (KeyError "backend"), w1).
Proof.
  apply (init_accepts_config_without_backend sample_env ["data"; "a.csv"] "csv" None 5
           VNone VNone None VNone no_backend_world
           [("database", VStr "company.db")] [] []).
  - repeat split.
  - simpl. lia.
  - reflexivity.
  - reflexivity.
  - reflexivity.
  - discriminate.
  - reflexivity.
Defined.
(** ** Cache keys of adapters *)

(** X14. The order in which the entries of a configuration dict were
    inserted does not show in the cache key: two adapters whose
    configurations are dicts with the same items get the same key. *)
Theorem cache_key_dict_order (E : Env) (a1 a2 : FileDataset) (w : World)
    l1 l2 items1 items2 :
  _connection_config a1 = VRef l1 →
  _connection_config a2 = VRef l2 →
  store w !! l1 = Some (ODict items1) →
  store w !! l2 = Some (ODict items2) →
  NoDup items1.*1 →
  items1 ≡ₚ items2 →
  cache_key E a1 w = cache_key E a2 w.
Proof.
  intros Hc1 Hc2 Hl1 Hl2 Hnd Hp. unfold cache_key. rewrite Hc1, Hc2.
  by eapply hashable_key_order.
Qed.

Lemma cache_key_dict_order_witness :
  cache_key sample_env sample_dataset reordered_world
  = cache_key sample_env reordered_dataset reordered_world.
Proof.
  apply (cache_key_dict_order sample_env sample_dataset reordered_dataset
           reordered_world 0 5
           [("backend", VStr "duckdb"); ("database", VStr ":memory:")]
           [("database", VStr ":memory:"); ("backend", VStr "duckdb")]);
    try reflexivity.
  - apply NoDup_cons. split; [|apply NoDup_singleton].
    intros Hin%list_elem_of_singleton. discriminate.
  - apply Permutation_swap.
Defined.

(** X15. A configuration made of dicts, lists and scalars only, within the
    recursion limit, always gets a cache key, one the registry accepts and
    that stands for the normalization of the configuration. *)
Theorem cache_key_json_like (E : Env) (self : FileDataset) (w : World) t :
  reify (recursion_limit E) (store w) (_connection_config self) = Some t →
  json_like t = true →
  ∃ key,
    cache_key E self w = Ok key
    ∧ is_hashable key = true
    ∧ denotes (store w) key (normalize_spec t)
    ∧ contains key w = (Ok (bool_decide (is_Some (reg_get key (_connections w)))), w).
Proof.
  intros Hr Hj.
  destruct (hashable_json_like _ _ _ _ Hr Hj) as (key & Hk & Hh).
  destruct (hashable_normalizes _ _ _ _ Hr) as (key' & Hk' & Hd).
  assert (key' = key) as -> by congruence.
  exists key. repeat (split; [done|]). unfold contains. by rewrite Hh.
Qed.

Lemma cache_key_json_like_witness :
  ∃ key,
    cache_key sample_env (twin_dataset 7) (with_store twin_store) = Ok key
    ∧ is_hashable key = true
    ∧ denotes twin_store key
        (normalize_spec (TDict [("backend", TStr "duckdb");
                                ("opts", TList [TList [TStr "a"; TInt 1]])]))
    ∧ contains key (with_store twin_store)
      = (Ok (bool_decide (is_Some (reg_get key []))), with_store twin_store).
Proof.
  apply (cache_key_json_like sample_env (twin_dataset 7) (with_store twin_store)
           (TDict [("backend", TStr "duckdb");
                   ("opts", TList [TList [TStr "a"; TInt 1]])])); reflexivity.
Defined.

Lemma is_hashable_tuple_elem vs x :
  x ∈ vs → is_hashable x = false → is_hashable (VTuple vs) = false.
Proof.
  intros Hin Hx. apply not_true_is_false. simpl. rewrite forallb_forall.
  intros Hall. rewrite (Hall x) in Hx; [done|]. by apply list_elem_of_In.
Qed.

Lemma sorted_elem {A} (lt : A → A → bool) x l : x ∈ l → x ∈ sorted lt l.
Proof. intros H. by rewrite sorted_perm. Qed.

(** X16. [hashable] leaves a tuple as it is, so a configuration with a list
    or a dict inside a tuple gets a key that cannot be hashed:
    [connection] raises [TypeError] at the lookup in the registry, before
    any copy is made or any call leaves the module. *)
Theorem connection_tuple_with_list (E : Env) (self : FileDataset) (w : World)
    l items k vs l0 key :
  _connection_config self = VRef l →
  store w !! l = Some (ODict items) →
  (k, VTuple vs) ∈ items →
  VRef l0 ∈ vs →
  cache_key E self w = Ok key →
  connection E self w = (Raise TypeError, w).
Proof.
  intros Hcfg Hl Hin Hin0 Hk.
  assert (Hh : is_hashable key = false).
  { unfold cache_key in Hk. rewrite Hcfg in Hk.
    destruct (recursion_limit E) as [|n]; [done|].
    rewrite hashable_S, Hl in Hk.
    destruct (mapM _ (sorted item_lt items)) as [keys|] eqn:Hm; [|done].
    inversion Hk; subst key. apply mapM_Ok_inv in Hm.
    pose proof (sorted_elem item_lt _ _ Hin) as Hs.
    apply list_elem_of_lookup in Hs as [i Hi].
    destruct (Forall2_lookup_l _ _ _ _ _ Hm Hi) as (pair & Hi' & Hpair).
    simpl in Hpair. destruct n as [|n]; [done|]. rewrite hashable_S in Hpair.
    inversion Hpair; subst pair.
    apply (is_hashable_tuple_elem _ (VTuple [VStr k; VTuple vs]));
      [by eapply list_elem_of_lookup_2|].
    apply (is_hashable_tuple_elem _ (VTuple vs)); [by right; left|].
    by apply (is_hashable_tuple_elem _ (VRef l0)). }
  unfold connection. rewrite bind_run. unfold get_world at 1. cbv beta iota.
  rewrite bind_run. unfold lift at 1. unfold cache_key in Hk. rewrite Hk.
  cbv beta iota. rewrite bind_run. unfold contains at 1. by rewrite Hh.
Qed.

Lemma connection_tuple_with_list_witness :
  connection sample_env tuple_dataset tuple_world = (Raise TypeError, tuple_world).
Proof.
  apply (connection_tuple_with_list sample_env tuple_dataset tuple_world 6
           [("backend", VStr "duckdb"); ("hosts", VTuple [VRef 5])]
           "hosts" [VRef 5] 5
           (VTuple [VTuple [VStr "backend"; VStr "duckdb"];
                    VTuple [VStr "hosts"; VTuple [VRef 5]]])).
  - reflexivity.
  - reflexivity.
  - right. left.
  - left.
  - reflexivity.
Defined.
